(** * Particle-swarm calibration of the eyes' extrinsics

    A shallow embedding of the [Optimizer] class of
    [src/stereoDisparity/disparityThread.h] (structs [Parameters] and
    [Particle], methods [randomize], [evaluate], [getExtrinsics], [init],
    [step], [finalize]) together with the properties stated about it.

    Numbers.  A C++ [double] is read as a real number ([R]); the fields that
    the code initialises with [std::numeric_limits<double>::infinity()]
    ([Particle::cost], [Parameters::maxT]) range over the reals extended with
    [+oo] ([xreal]).  Rounding, NaN and overflow are outside this reading.
    An [int] is read as an integer in [Z]; [iter++] is not modelled beyond
    [INT_MAX], where the C++ behaviour is undefined.

    Libraries.  [yarp::sig::Vector] is a list of reals, [yarp::sig::Matrix] a
    list of rows.  Vector arithmetic, [norm], [subVector], [getCol] and the
    matrix product are written out.  [Matrix::setCol] and the functions of
    [iCub::ctrl] ([SE3inv], [rpy2dcm], [dcm2rpy]) are not part of the
    repository: they are the fields of the interface [CtrlMath], and the
    theorems hold for all its instances; the module [Sample] gives one, for
    the examples.  [yarp::math::Rand] is an arbitrary sequence of draws from
    [[0,1]], consumed in order; [yarp::os::Time::now()] is an argument of
    [init] and [step]. *)

From Stdlib Require Import Reals List ZArith Lia Lra Bool Arith Permutation.
Import ListNotations.

Local Open Scope R_scope.

(* ------------------------------------------------------------------ *)
(** ** Extended reals: a [double] that may hold [+infinity] *)

Inductive xreal : Type :=
| Fin (r : R)
| PInf.

(** [a < b] on doubles. *)
Definition xlt (a b : xreal) : Prop :=
  match a, b with
  | Fin u, Fin v => u < v
  | Fin _, PInf => True
  | PInf, _ => False
  end.

Definition xle (a b : xreal) : Prop :=
  match a, b with
  | Fin u, Fin v => u <= v
  | _, PInf => True
  | PInf, Fin _ => False
  end.

Definition xlt_dec (a b : xreal) : {xlt a b} + {~ xlt a b}.
Proof.
  destruct a as [u|], b as [v|]; simpl.
  - apply Rlt_dec.
  - left; exact I.
  - right; intros [].
  - right; intros [].
Defined.

Arguments xlt_dec : simpl never.

(* ------------------------------------------------------------------ *)
(** ** yarp::sig::Vector and yarp::math *)

Definition Vector := list R.

(** [Vector(n, v)] *)
Definition vconst (n : nat) (v : R) : Vector := repeat v n.

(** [v[i]] (read) *)
Definition vget (v : Vector) (i : nat) : R := nth i v 0.

(** [v[i] = a] (write); the code only writes inside the vector. *)
Fixpoint vset (v : Vector) (i : nat) (a : R) : Vector :=
  match v, i with
  | [], _ => []
  | _ :: v', O => a :: v'
  | b :: v', S i' => b :: vset v' i' a
  end.

(** Element-wise combination of two vectors of the same length. *)
Fixpoint vzip (f : R -> R -> R) (a b : Vector) : Vector :=
  match a, b with
  | u :: a', v :: b' => f u v :: vzip f a' b'
  | _, _ => []
  end.

(** [a + b], [a - b], [a * b] (element-wise), [k * a] of yarp::math *)
Definition vadd : Vector -> Vector -> Vector := vzip Rplus.

Definition vsub : Vector -> Vector -> Vector := vzip Rminus.

Definition vmul : Vector -> Vector -> Vector := vzip Rmult.

Definition vscale (k : R) (a : Vector) : Vector := map (Rmult k) a.

(** [dot(a,b)] and [norm(a)] *)
Definition dot (a b : Vector) : R := fold_right Rplus 0 (vmul a b).

Definition norm (a : Vector) : R := sqrt (dot a a).

(** [v.subVector(first,last)]: the components [first..last], both included *)
Definition subVector (first last : nat) (v : Vector) : Vector :=
  firstn (S last - first) (skipn first v).

(* ------------------------------------------------------------------ *)
(** ** yarp::sig::Matrix *)

Definition Matrix := list (list R).

(** [M(i,j)] *)
Definition mat (M : Matrix) (i j : nat) : R := nth j (nth i M []) 0.

Definition rows (M : Matrix) : nat := length M.

Definition cols (M : Matrix) : nat := length (hd [] M).

(** [M.getCol(c)] *)
Definition getCol (c : nat) (M : Matrix) : Vector :=
  map (fun row => nth c row 0) M.

(** [A * B] *)
Definition mmul (A B : Matrix) : Matrix :=
  map (fun row => map (fun j => dot row (getCol j B)) (seq 0 (cols B))) A.

(** The matrix functions whose code lives in YARP and iCub::ctrl. *)
Class CtrlMath : Type := {
  (** [M.setCol(c, v)], the matrix after the call *)
  setCol : nat -> Vector -> Matrix -> Matrix;
  (** [iCub::ctrl::SE3inv] *)
  SE3inv : Matrix -> Matrix;
  (** [iCub::ctrl::rpy2dcm] *)
  rpy2dcm : Vector -> Matrix;
  (** [iCub::ctrl::dcm2rpy] *)
  dcm2rpy : Matrix -> Vector
}.

(* ------------------------------------------------------------------ *)
(** ** The structs of the source *)

(** [#define DEG2RAD (M_PI/180.0)] *)
Definition M_PI : R := PI.

Definition DEG2RAD : R := M_PI / 180.

(** [std::numeric_limits<int>::max()] *)
Definition INT_MAX : Z := 2147483647.

Module Parameters.

Record t : Type := mk {
  numParticles : Z;
  maxIter : Z;
  maxT : xreal;
  omega : R;
  phi_p : R;
  phi_g : R;
  cost : R;
  lim : Matrix
}.

(** The constructor [Parameters()]. *)
Definition default : t :=
  {| numParticles := 20;
     maxIter := INT_MAX;
     maxT := PInf;
     omega := 0.8;
     phi_p := 0.1;
     phi_g := 0.1;
     cost := 0.0;
     lim := [ [ -0.1; 0.1 ];
              [ -0.1; 0.1 ];
              [ -0.1; 0.1 ];
              [ - M_PI; M_PI ];
              [ - M_PI / 2.0; M_PI / 2.0 ];
              [ - M_PI; M_PI ] ] |}.

End Parameters.

Module Particle.

Record t : Type := mk {
  pos : Vector;
  vel : Vector;
  cost : xreal
}.

(** The constructor [Particle()]. *)
Definition default : t :=
  {| pos := vconst 6 0.0; vel := vconst 6 0.0; cost := PInf |}.

(** Assignments to one member. *)
Definition set_pos (q : t) (v : Vector) : t :=
  {| pos := v; vel := vel q; cost := cost q |}.

Definition set_vel (q : t) (v : Vector) : t :=
  {| pos := pos q; vel := v; cost := cost q |}.

Definition set_cost (q : t) (c : xreal) : t :=
  {| pos := pos q; vel := vel q; cost := c |}.

End Particle.

(** Modelled from the spec: [CalibrationData] is declared in
    [eyesCalibration.h]; a sample holds the two kinematic poses of the eyes
    and the observed relative pose, three 4x4 homogeneous transforms. *)
Record CalibrationData : Type := mkCalibrationData {
  eye_kin_left : Matrix;
  eye_kin_right : Matrix;
  fundamental : Matrix
}.

(* ------------------------------------------------------------------ *)
(** ** yarp::math::Rand: a state monad over the position in the sequence
       of draws *)

Definition Rand (A : Type) : Type := nat -> A * nat.

Definition ret {A : Type} (a : A) : Rand A := fun k => (a, k).

Definition bind {A B : Type} (c : Rand A) (f : A -> Rand B) : Rand B :=
  fun k => let (a, k') := c k in f a k'.

Notation "x <- c ;; f" := (bind c (fun x => f))
  (at level 61, c at next level, right associativity).

Notation "' pat <- c ;; f" := (bind c (fun x => match x with pat => f end))
  (at level 61, pat pattern, c at next level, right associativity).

(** [for] over a [std::deque], one call per element, in order. *)
Fixpoint mapR {A B : Type} (f : A -> Rand B) (l : list A) : Rand (list B) :=
  match l with
  | [] => ret []
  | a :: l' => b <- f a ;; bs <- mapR f l' ;; ret (b :: bs)
  end.

(** [std::max(a,b)] is [(a<b)?b:a] and [std::min(a,b)] is [(b<a)?b:a]. *)
Definition std_max (a b : R) : R := if Rlt_dec a b then b else a.

Definition std_min (a b : R) : R := if Rlt_dec b a then b else a.

(** [a < b] as a C++ [bool]. *)
Definition xltb (a b : xreal) : bool := if xlt_dec a b then true else false.

(** The members of [class Optimizer]. [data] is the constant reference to
    the sample store. *)
Record Optimizer : Type := mkOptimizer {
  data : list CalibrationData;
  parameters : Parameters.t;
  x : list Particle.t;
  p : list Particle.t;
  g : Particle.t;
  rand_min : Vector;
  rand_max : Vector;
  iter : Z;
  t : R;
  t0 : R
}.

(** What [const Particle &] designates: a member of the optimizer, read in
    the optimizer's current state. *)
Inductive ParticleRef : Type :=
| member_g.

Definition deref (s : Optimizer) (r : ParticleRef) : Particle.t :=
  match r with
  | member_g => g s
  end.

Section Swarm.

Context {L : CtrlMath}.

(** [uniform k] is the [k]-th number produced by the generator. *)
Variable uniform : nat -> R.

(** [Rand::scalar()] *)
Definition Rand_scalar01 : Rand R := fun k => (uniform k, S k).

(** [Rand::scalar(min,max)] *)
Definition Rand_scalar (lo hi : R) : Rand R :=
  u <- Rand_scalar01 ;; ret ((hi - lo) * u + lo).

(** [Rand::vector(min,max)] *)
Fixpoint Rand_vector (mn mx : Vector) : Rand Vector :=
  match mn, mx with
  | a :: mn', b :: mx' =>
      r <- Rand_scalar a b ;; rs <- Rand_vector mn' mx' ;; ret (r :: rs)
  | _, _ => ret []
  end.

(** The inner loop of [randomize]: [pos[i] = Rand::scalar(lim(i,0),lim(i,1))]
    for the components from index [i] on. *)
Fixpoint randomize_pos (lim : Matrix) (i : nat) (pos : Vector) : Rand Vector :=
  match pos with
  | [] => ret []
  | _ :: pos' =>
      r <- Rand_scalar (mat lim i 0) (mat lim i 1) ;;
      rs <- randomize_pos lim (S i) pos' ;;
      ret (r :: rs)
  end.

(** The body of the outer loop of [randomize]. *)
Definition randomize_particle (lim : Matrix) (q : Particle.t) : Rand Particle.t :=
  pos' <- randomize_pos lim 0 (Particle.pos q) ;;
  v0 <- Rand_scalar (-1e-4) 1e-4 ;;
  v1 <- Rand_scalar (-1e-4) 1e-4 ;;
  v2 <- Rand_scalar (-1e-4) 1e-4 ;;
  v3 <- Rand_scalar (-1.0) 1.0 ;;
  v4 <- Rand_scalar (-1.0) 1.0 ;;
  v5 <- Rand_scalar (-1.0) 1.0 ;;
  let vel0 := vset (Particle.vel q) 0 v0 in
  let vel1 := vset vel0 1 v1 in
  let vel2 := vset vel1 2 v2 in
  let vel3 := vset vel2 3 (v3 * DEG2RAD) in
  let vel4 := vset vel3 4 (v4 * DEG2RAD) in
  let vel5 := vset vel4 5 (v5 * DEG2RAD) in
  ret {| Particle.pos := pos'; Particle.vel := vel5;
         Particle.cost := Particle.cost q |}.

Definition set_x (s : Optimizer) (x' : list Particle.t) : Optimizer :=
  {| data := data s; parameters := parameters s; x := x'; p := p s; g := g s;
     rand_min := rand_min s; rand_max := rand_max s;
     iter := iter s; t := t s; t0 := t0 s |}.

(** [void randomize()] *)
Definition randomize (s : Optimizer) : Rand Optimizer :=
  x' <- mapR (randomize_particle (Parameters.lim (parameters s))) (x s) ;;
  ret (set_x s x').

(** [bool getExtrinsics(const Vector &x, Matrix &Hl, Matrix &Hr)]: the
    returned flag and the two matrices after the call. *)
Definition getExtrinsics (x : Vector) (Hl Hr : Matrix) : bool * Matrix * Matrix :=
  if (6 <=? length x)%nat then
    let Hr := rpy2dcm (subVector 3 5 x) in
    let Hr := setCol 3 (subVector 0 2 x) Hr in
    let y := x in
    let y := vset y 0 (- vget y 0) in
    let y := vset y 5 (- vget y 5) in
    let Hl := rpy2dcm (subVector 3 5 y) in
    let Hl := setCol 3 (subVector 0 2 y) Hl in
    (true, Hl, Hr)
  else (false, Hl, Hr).

(** The three additions to [particle.cost] made for one sample. *)
Definition accumulate (pos : Vector) (Hl Hr : Matrix) (cost : R)
    (d : CalibrationData) : R :=
  let Hl_ := mmul (eye_kin_left d) Hl in
  let Hr_ := mmul (eye_kin_right d) Hr in
  let D := mmul (SE3inv Hr_) Hl_ in
  let cost := cost + norm (vsub (subVector 0 2 (getCol 3 (fundamental d)))
                                 (subVector 0 2 (getCol 3 D))) in
  let cost := cost + norm (vsub (dcm2rpy (fundamental d)) (dcm2rpy D)) in
  let cost := cost + 0.1 * norm (subVector 0 2 pos) in
  cost.

(** [double evaluate(Particle &particle)]: the cost the call leaves in
    [particle.cost], which is also the value it returns. *)
Definition evaluate_cost (data : list CalibrationData) (pos : Vector) : R :=
  let '(_, Hl, Hr) := getExtrinsics pos [] [] in
  let cost := 0.0 in
  if (0 <? length data)%nat then
    let cost := fold_left (accumulate pos Hl Hr) data cost in
    cost / INR (length data)
  else cost.

Definition evaluate (data : list CalibrationData) (particle : Particle.t)
  : Particle.t * R :=
  let c := evaluate_cost data (Particle.pos particle) in
  (Particle.set_cost particle (Fin c), c).

(** The loop of [init]: [if (evaluate(p[i])<g.cost) g=p[i];] for every [i]. *)
Fixpoint init_loop (data : list CalibrationData) (ps : list Particle.t)
    (g : Particle.t) : list Particle.t * Particle.t :=
  match ps with
  | [] => ([], g)
  | pi :: ps' =>
      let (pi, f) := evaluate data pi in
      let g := if xlt_dec (Fin f) (Particle.cost g) then pi else g in
      let (ps', g) := init_loop data ps' g in
      (pi :: ps', g)
  end.

(** [void init()]; [now] is what [Time::now()] returns. A negative
    [numParticles] makes [x.assign] fail and is not modelled. *)
Definition init (now : R) (s : Optimizer) : Rand Optimizer :=
  let n := Z.to_nat (Parameters.numParticles (parameters s)) in
  let s := set_x s (repeat Particle.default n) in
  s <- randomize s ;;
  let p := x s in
  let (p, g) := init_loop (data s) p (g s) in
  ret {| data := data s; parameters := parameters s; x := x s; p := p; g := g;
         rand_min := rand_min s; rand_max := rand_max s;
         iter := 0; t := 0.0; t0 := now |}.

(** [x[i].pos[j]=std::min(std::max(x[i].pos[j],lim(j,0)),lim(j,1))] *)
Definition clamp (lim : Matrix) (j : nat) (v : R) : R :=
  std_min (std_max v (mat lim j 0)) (mat lim j 1).

(** The clamping loop, for the components from index [j] on. *)
Fixpoint clamp_pos (lim : Matrix) (j : nat) (pos : Vector) : Vector :=
  match pos with
  | [] => []
  | v :: pos' => clamp lim j v :: clamp_pos lim (S j) pos'
  end.

(** The velocity assigned in [step]. *)
Definition new_vel (pars : Parameters.t) (r1 r2 : Vector)
    (xi pi g : Particle.t) : Vector :=
  vadd (vadd (vscale (Parameters.omega pars) (Particle.vel xi))
             (vmul (vscale (Parameters.phi_p pars) r1)
                   (vsub (Particle.pos pi) (Particle.pos xi))))
       (vmul (vscale (Parameters.phi_g pars) r2)
             (vsub (Particle.pos g) (Particle.pos xi))).

(** The body of the particle loop of [step], on [x[i]], [p[i]] and [g]. *)
Definition update_particle (s : Optimizer) (xi pi g : Particle.t)
  : Rand (Particle.t * Particle.t * Particle.t) :=
  r1 <- Rand_vector (rand_min s) (rand_max s) ;;
  r2 <- Rand_vector (rand_min s) (rand_max s) ;;
  let xi := Particle.set_vel xi (new_vel (parameters s) r1 r2 xi pi g) in
  let xi := Particle.set_pos xi (vadd (Particle.pos xi) (Particle.vel xi)) in
  let xi := Particle.set_pos xi
              (clamp_pos (Parameters.lim (parameters s)) 0 (Particle.pos xi)) in
  let (xi, f) := evaluate (data s) xi in
  if xlt_dec (Fin f) (Particle.cost pi) then
    let pi := xi in
    let pi := Particle.set_cost pi (Fin f) in
    if xlt_dec (Fin f) (Particle.cost g) then ret (xi, pi, pi)
    else ret (xi, pi, g)
  else ret (xi, pi, g).

(** The particle loop of [step]: [x[i]] and [p[i]] side by side, [g]
    carried from one particle to the next. The two deques have the same
    length from [init()] on. *)
Fixpoint step_loop (s : Optimizer) (xs ps : list Particle.t) (g : Particle.t)
  : Rand (list Particle.t * list Particle.t * Particle.t) :=
  match xs, ps with
  | xi :: xs', pi :: ps' =>
      '(xi, pi, g) <- update_particle s xi pi g ;;
      '(xs', ps', g) <- step_loop s xs' ps' g ;;
      ret (xi :: xs', pi :: ps', g)
  | _, _ => ret (xs, ps, g)
  end.

(** [step], first part: [iter++] and the particle loop. *)
Definition step_particles (s : Optimizer) : Rand Optimizer :=
  let iter := (iter s + 1)%Z in
  '(x, p, g) <- step_loop s (x s) (p s) (g s) ;;
  ret {| data := data s; parameters := parameters s; x := x; p := p; g := g;
         rand_min := rand_min s; rand_max := rand_max s;
         iter := iter; t := t s; t0 := t0 s |}.

(** The mean distance of the particles from the global best. *)
Definition mean_distance (s : Optimizer) : R :=
  let mean := 0.0 in
  let mean := fold_left
                (fun mean xi =>
                   mean + norm (vsub (Particle.pos (g s)) (Particle.pos xi)))
                (x s) mean in
  if (0 <? length (x s))%nat then mean / INR (length (x s)) else mean.

(** [step], second part: the scattering of a stalled swarm; the flag is
    [randomize_print]. *)
Definition step_scatter (s : Optimizer) : Rand (Optimizer * bool) :=
  if (Z.rem (iter s) 100 =? 0)%Z then
    if Rlt_dec (mean_distance s) 0.005 then
      s <- randomize s ;; ret (s, true)
    else ret (s, false)
  else ret (s, false).

(** [step], last part: the clock and the returned flag [term]. *)
Definition step_term (now : R) (s : Optimizer) : bool * Optimizer :=
  let t := now - t0 s in
  let term := (iter s <? Parameters.maxIter (parameters s))%Z
              && xltb (Fin (Parameters.cost (parameters s))) (Particle.cost (g s))
              && xltb (Fin t) (Parameters.maxT (parameters s)) in
  (term,
   {| data := data s; parameters := parameters s; x := x s; p := p s; g := g s;
      rand_min := rand_min s; rand_max := rand_max s;
      iter := iter s; t := t; t0 := t0 s |}).

(** [bool step()]; [now] is what [Time::now()] returns. The lines printed
    every tenth iteration are not modelled. *)
Definition step (now : R) (s : Optimizer) : Rand (bool * Optimizer) :=
  s <- step_particles s ;;
  '(s, _) <- step_scatter s ;;
  ret (step_term now s).

(** [const Particle &finalize()]: the reference it returns. The summary it
    prints is not modelled. *)
Definition finalize (s : Optimizer) : ParticleRef := member_g.

End Swarm.

(** The constructor [Optimizer(data_)]. It leaves [iter], [t] and [t0]
    without a value; they are given here. *)
Definition Optimizer_new (data_ : list CalibrationData) (iter_ : Z) (t_ t0_ : R)
  : Optimizer :=
  {| data := data_; parameters := Parameters.default;
     x := []; p := []; g := Particle.default;
     rand_min := vconst 6 0.0; rand_max := vconst 6 1.0;
     iter := iter_; t := t_; t0 := t0_ |}.

(** An assignment through the reference returned by [getParameters()]. *)
Definition set_parameters (s : Optimizer) (pars : Parameters.t) : Optimizer :=
  {| data := data s; parameters := pars; x := x s; p := p s; g := g s;
     rand_min := rand_min s; rand_max := rand_max s;
     iter := iter s; t := t s; t0 := t0 s |}.

(* ------------------------------------------------------------------ *)
(** ** Words of the specification *)

(** The sum of a list of reals. *)
Definition Rsum (l : list R) : R := fold_right Rplus 0 l.

(** The translation of a homogeneous transform: the first three entries of
    its last column. *)
Definition translation (H : Matrix) : Vector := firstn 3 (getCol 3 H).

(** [pos[0:3]], the translation part of a pose. *)
Definition pos_translation (pos : Vector) : Vector := firstn 3 pos.

(** A value that an [int] can hold. *)
Definition is_int (z : Z) : Prop := (- INT_MAX - 1 <= z <= INT_MAX)%Z.

(** An iteration cap of [+oo]: no iteration count reaches it. *)
Definition unbounded_cap (cap : Z) : Prop :=
  forall it : Z, is_int it -> (it < cap)%Z.

(** The default bounds as the specification lists them. *)
Definition spec_bounds : Matrix :=
  [ [ - (1 / 10); 1 / 10 ];
    [ - (1 / 10); 1 / 10 ];
    [ - (1 / 10); 1 / 10 ];
    [ - PI; PI ];
    [ - (PI / 2); PI / 2 ];
    [ - PI; PI ] ].

(** The default parameters as the specification lists them, the iteration
    cap left open. *)
Definition spec_defaults (pars : Parameters.t) : Prop :=
  Parameters.numParticles pars = 20%Z /\
  Parameters.maxT pars = PInf /\
  Parameters.omega pars = 8 / 10 /\
  Parameters.phi_p pars = 1 / 10 /\
  Parameters.phi_g pars = 1 / 10 /\
  Parameters.cost pars = 0 /\
  Parameters.lim pars = spec_bounds.

(** The vector [y] that equals [x] but for the signs of its components 0
    and 5. *)
Definition mirrored (x y : Vector) : Prop :=
  length y = length x /\
  vget y 0 = - vget x 0 /\
  vget y 5 = - vget x 5 /\
  forall j : nat, j <> 0%nat -> j <> 5%nat -> vget y j = vget x j.

(** The states of an optimizer built on the store [data_] and given the
    parameters [pars]: after [init()], and after each further [step()].
    Each call may find the generator at any place of its sequence and the
    clock at any time. *)
Inductive reachable {L : CtrlMath} (uniform : nat -> R)
    (data_ : list CalibrationData) (pars : Parameters.t) : Optimizer -> Prop :=
| reachable_init (iter_ : Z) (t_ t0_ now : R) (k : nat) :
    reachable uniform data_ pars
      (fst (init uniform now
              (set_parameters (Optimizer_new data_ iter_ t_ t0_) pars) k))
| reachable_step (s : Optimizer) (now : R) (k : nat) :
    reachable uniform data_ pars s ->
    reachable uniform data_ pars (snd (fst (step uniform now s k))).

(** The relative pose predicted for a sample,
    [D = inverse(eye_kin_right * Hr) * (eye_kin_left * Hl)]. *)
Definition predicted {L : CtrlMath} (Hl Hr : Matrix) (d : CalibrationData)
  : Matrix :=
  mmul (SE3inv (mmul (eye_kin_right d) Hr)) (mmul (eye_kin_left d) Hl).

(** The misfit of a sample: the distance between the observed and the
    predicted translations plus the distance between their roll-pitch-yaw
    angles. *)
Definition misfit {L : CtrlMath} (Hl Hr : Matrix) (d : CalibrationData) : R :=
  norm (vsub (translation (fundamental d)) (translation (predicted Hl Hr d)))
  + norm (vsub (dcm2rpy (fundamental d)) (dcm2rpy (predicted Hl Hr d))).

(** What [init] and [step] maintain for a personal best [pi] under the
    global best [g]: [g] costs no more, and the recorded cost is the cost of
    the recorded position. *)
Definition kept {L : CtrlMath} (data_ : list CalibrationData)
    (g pi : Particle.t) : Prop :=
  xle (Particle.cost g) (Particle.cost pi) /\
  Particle.cost pi = Fin (evaluate_cost data_ (Particle.pos pi)).

(** [s'] differs from [s] in the particles [x] only. *)
Definition only_x_changed (s s' : Optimizer) : Prop :=
  data s' = data s /\ parameters s' = parameters s /\
  p s' = p s /\ g s' = g s /\
  rand_min s' = rand_min s /\ rand_max s' = rand_max s /\
  iter s' = iter s /\ t s' = t s /\ t0 s' = t0 s.

(** A particle as the code builds it: six positions, six velocities. *)
Definition six (q : Particle.t) : Prop :=
  length (Particle.pos q) = 6%nat /\ length (Particle.vel q) = 6%nat.

(** The shape of the optimizer's state after [init()]. *)
Definition well_formed (s : Optimizer) : Prop :=
  Forall six (x s) /\ Forall six (p s) /\ six (g s) /\
  length (p s) = length (x s) /\
  rand_min s = vconst 6 0.0 /\ rand_max s = vconst 6 1.0.

(** The position and the velocity that [randomize] gives a particle when
    the generator stands at draw [k]: twelve draws, scaled to the bounds and
    to the velocity ranges. *)
Definition scatter_pos (uniform : nat -> R) (lim : Matrix) (k : nat) : Vector :=
  map (fun j => (mat lim j 1 - mat lim j 0) * uniform (j + k)%nat + mat lim j 0)
      (seq 0 6).

Definition scatter_vel (uniform : nat -> R) (k : nat) : Vector :=
  map (fun j => if (j <? 3)%nat
                then (1e-4 - -1e-4) * uniform (6 + j + k)%nat + -1e-4
                else ((1.0 - -1.0) * uniform (6 + j + k)%nat + -1.0) * DEG2RAD)
      (seq 0 6).

(** The vector that [Rand::vector(rand_min,rand_max)] returns when the
    generator stands at draw [k], for the [rand_min] and [rand_max] of the
    constructor. *)
Definition unit_draws (uniform : nat -> R) (k : nat) : Vector :=
  map (fun j => (1.0 - 0.0) * uniform (j + k)%nat + 0.0) (seq 0 6).

(** The reading of "a copy, decoupled from further mutation": what
    [finalize()] returned in state [s] reads the same once the optimizer has
    moved on to state [s']. *)
Definition decoupled (s s' : Optimizer) : Prop :=
  deref s' (finalize s) = deref s (finalize s).

(** Every bound of the matrix is an interval: [lim(j,0) <= lim(j,1)]. *)
Definition bounds_ordered (lim : Matrix) : Prop :=
  forall j : nat, (j < 6)%nat -> mat lim j 0 <= mat lim j 1.

(** [v[j]] lies within [[lim(j,0), lim(j,1)]] for each of the components. *)
Definition within_bounds (lim : Matrix) (v : Vector) : Prop :=
  forall j : nat, (j < length v)%nat -> mat lim j 0 <= vget v j <= mat lim j 1.

(* ------------------------------------------------------------------ *)
(** ** The class EyesCalibration: the sample store and the driver *)

(** Modelled from the spec: [class EyesCalibration] is declared in
    [eyesCalibration.h]; its member [data] is the deque of samples. *)
Module EyesCalibration.

Record t : Type := mk {
  data : list CalibrationData
}.

End EyesCalibration.

(** What [CalibrationData &] designates: an element of the deque, by its
    index. A [std::deque] keeps the references to its elements when
    [push_back] adds one. *)
Inductive SampleRef : Type :=
| sample_at (i : nat).

Definition deref_sample (e : EyesCalibration.t) (r : SampleRef)
  : option CalibrationData :=
  match r with
  | sample_at i => nth_error (EyesCalibration.data e) i
  end.

(** [l[i] = a] on a deque. *)
Fixpoint set_nth {A : Type} (l : list A) (i : nat) (a : A) : list A :=
  match l, i with
  | [], _ => []
  | _ :: l', O => a :: l'
  | b :: l', S i' => b :: set_nth l' i' a
  end.

(** An assignment through a [CalibrationData &]. *)
Definition assign_sample (e : EyesCalibration.t) (r : SampleRef)
    (d : CalibrationData) : EyesCalibration.t :=
  match r with
  | sample_at i =>
      {| EyesCalibration.data := set_nth (EyesCalibration.data e) i d |}
  end.

(** [CalibrationData &EyesCalibration::addData()]; [d] is the
    default-constructed record. [data.back()] is the element at index
    [size-1]. *)
Definition addData (d : CalibrationData) (e : EyesCalibration.t)
  : EyesCalibration.t * SampleRef :=
  let data := EyesCalibration.data e ++ [d] in
  ({| EyesCalibration.data := data |}, sample_at (length data - 1)).

(** The loop [while (swarm.step()) { if (++cnt>=10) { Time::yield(); cnt=0; } }]
    of [runCalibration], with the number of iterations it may take as
    [fuel]. [clock c] is what the [c]-th call of [Time::now()] returns.
    The result is the optimizer after the loop, the number of calls of
    [step()] and the number of calls of [Time::yield()]. *)
Fixpoint run_loop {L : CtrlMath} (uniform clock : nat -> R) (fuel : nat)
    (swarm : Optimizer) (cnt : Z) (calls yields : nat) (k c : nat)
  : option (Optimizer * nat * nat) :=
  match fuel with
  | O => None
  | S fuel' =>
      let '(term, swarm, k) := step uniform (clock c) swarm k in
      if term then
        let cnt := (cnt + 1)%Z in
        if (10 <=? cnt)%Z
        then run_loop uniform clock fuel' swarm 0 (S calls) (S yields) k (S c)
        else run_loop uniform clock fuel' swarm cnt (S calls) yields k (S c)
      else Some (swarm, S calls, yields)
  end.

(** [double EyesCalibration::runCalibration(Matrix &extrinsics_left,
    Matrix &extrinsics_right)]: the returned cost and the two matrices
    after the call. [Rand::init()] leaves the generator at draw [seed]; the
    members [iter], [t] and [t0] of the new optimizer are assigned by
    [init()] before they are read; the elapsed time and the line printed at
    the end are not modelled. *)
Definition runCalibration {L : CtrlMath} (uniform clock : nat -> R)
    (fuel : nat) (e : EyesCalibration.t) (seed c : nat)
    (extrinsics_left extrinsics_right : Matrix)
  : option (xreal * Matrix * Matrix) :=
  let swarm := Optimizer_new (EyesCalibration.data e) 0 0 0 in
  let (swarm, k) := init uniform (clock c) swarm seed in
  let cnt := 0%Z in
  let t0 := clock (S c) in
  match run_loop uniform clock fuel swarm cnt 0 0 k (S (S c)) with
  | None => None
  | Some (swarm, _, _) =>
      let g := finalize swarm in
      let '(_, extrinsics_left, extrinsics_right) :=
        getExtrinsics (Particle.pos (deref swarm g))
          extrinsics_left extrinsics_right in
      Some (Particle.cost (deref swarm g), extrinsics_left, extrinsics_right)
  end.

(* ------------------------------------------------------------------ *)
(** ** A sample instance of the interface, for examples

    Homogeneous transforms with the roll-pitch-yaw convention of the
    textbooks; [setCol] writes the given entries from the first row down. *)

Module Sample.

Fixpoint set_col (c : nat) (v : Vector) (M : Matrix) : Matrix :=
  match M, v with
  | row :: M', a :: v' => vset row c a :: set_col c v' M'
  | _, _ => M
  end.

Definition transpose3 (H : Matrix) : Matrix :=
  map (fun j => map (fun i => mat H i j) (seq 0 3)) (seq 0 3).

Definition se3_inv (H : Matrix) : Matrix :=
  let Rt := transpose3 H in
  let p := translation H in
  map (fun i => nth i Rt [] ++ [ - dot (nth i Rt []) p ]) (seq 0 3)
    ++ [ [0; 0; 0; 1] ].

Definition rpy_to_dcm (v : Vector) : Matrix :=
  let (cr, sr) := (cos (vget v 0), sin (vget v 0)) in
  let (cp, sp) := (cos (vget v 1), sin (vget v 1)) in
  let (cy, sy) := (cos (vget v 2), sin (vget v 2)) in
  let Rz := [ [cy; - sy; 0; 0]; [sy; cy; 0; 0]; [0; 0; 1; 0]; [0; 0; 0; 1] ] in
  let Ry := [ [cp; 0; sp; 0]; [0; 1; 0; 0]; [- sp; 0; cp; 0]; [0; 0; 0; 1] ] in
  let Rx := [ [1; 0; 0; 0]; [0; cr; - sr; 0]; [0; sr; cr; 0]; [0; 0; 0; 1] ] in
  mmul Rz (mmul Ry Rx).

Definition atan2 (y x : R) : R :=
  if Rlt_dec 0 x then atan (y / x)
  else if Rlt_dec x 0 then
         if Rle_dec 0 y then atan (y / x) + PI else atan (y / x) - PI
       else if Rlt_dec 0 y then PI / 2
            else if Rlt_dec y 0 then - (PI / 2) else 0.

Definition dcm_to_rpy (H : Matrix) : Vector :=
  [ atan2 (mat H 2 1) (mat H 2 2);
    asin (- mat H 2 0);
    atan2 (mat H 1 0) (mat H 0 0) ].

#[export] Instance math : CtrlMath :=
  {| setCol := set_col; SE3inv := se3_inv;
     rpy2dcm := rpy_to_dcm; dcm2rpy := dcm_to_rpy |}.

(** The 4x4 identity. *)
Definition eye4 : Matrix :=
  [ [1; 0; 0; 0]; [0; 1; 0; 0]; [0; 0; 1; 0]; [0; 0; 0; 1] ].

(** One sample: both eyes at the origin, the relative pose the identity. *)
Definition sample : CalibrationData :=
  {| eye_kin_left := eye4; eye_kin_right := eye4; fundamental := eye4 |}.

(** A generator that always draws the middle of the interval. *)
Definition half : nat -> R := fun _ => 1 / 2.

(** A particle at rest at the origin, and a swarm of that one particle
    that has gone through 99 iterations. *)
Definition still : Particle.t :=
  {| Particle.pos := vconst 6 0.0; Particle.vel := vconst 6 0.0;
     Particle.cost := Fin 0 |}.

Definition stalled : Optimizer :=
  {| data := []; parameters := Parameters.default;
     x := [still]; p := [still]; g := still;
     rand_min := vconst 6 0.0; rand_max := vconst 6 1.0;
     iter := 99; t := 0; t0 := 0 |}.

(** The transform with the identity as rotation and [(b, 0, 0)] as
    translation. *)
Definition shift (b : R) : Matrix :=
  [ [1; 0; 0; b]; [0; 1; 0; 0]; [0; 0; 1; 0]; [0; 0; 0; 1] ].

(** A generator whose first draw is 1, whose seventh is 0 and whose other
    draws are 1/2: [randomize] then puts a particle at [(0.1, 0, 0, 0, 0, 0)]
    with the velocity [(-1e-4, 0, 0, 0, 0, 0)]. *)
Definition toward : nat -> R :=
  fun k => match k with 0%nat => 1 | 6%nat => 0 | _ => 1 / 2 end.

(** The default parameters, for a swarm of one particle. *)
Definition one_particle : Parameters.t :=
  {| Parameters.numParticles := 1;
     Parameters.maxIter := Parameters.maxIter Parameters.default;
     Parameters.maxT := Parameters.maxT Parameters.default;
     Parameters.omega := Parameters.omega Parameters.default;
     Parameters.phi_p := Parameters.phi_p Parameters.default;
     Parameters.phi_g := Parameters.phi_g Parameters.default;
     Parameters.cost := Parameters.cost Parameters.default;
     Parameters.lim := Parameters.lim Parameters.default |}.

(** A particle on the first axis. *)
Definition along_x (a v : R) (cost : xreal) : Particle.t :=
  {| Particle.pos := [a; 0; 0; 0; 0; 0];
     Particle.vel := [v; 0; 0; 0; 0; 0];
     Particle.cost := cost |}.

(** The optimizer on the store [[sample]] after [init()], for the generator
    [toward] and the parameters [one_particle]. *)
Definition after_init : Optimizer :=
  {| data := [sample]; parameters := one_particle;
     x := [along_x (1 / 10) (- (1 / 10000)) PInf];
     p := [along_x (1 / 10) (- (1 / 10000)) (Fin (21 / 100))];
     g := along_x (1 / 10) (- (1 / 10000)) (Fin (21 / 100));
     rand_min := vconst 6 0.0; rand_max := vconst 6 1.0;
     iter := 0; t := 0.0; t0 := 0 |}.

(** A second sample, whose observed relative pose is a shift along the
    first axis. *)
Definition sample_far : CalibrationData :=
  {| eye_kin_left := eye4; eye_kin_right := eye4; fundamental := shift 1 |}.

(** The default parameters with one field changed: the first bound given
    in the wrong order, no particle, a cap of three iterations. *)
Definition inverted : Parameters.t :=
  {| Parameters.numParticles := Parameters.numParticles Parameters.default;
     Parameters.maxIter := Parameters.maxIter Parameters.default;
     Parameters.maxT := Parameters.maxT Parameters.default;
     Parameters.omega := Parameters.omega Parameters.default;
     Parameters.phi_p := Parameters.phi_p Parameters.default;
     Parameters.phi_g := Parameters.phi_g Parameters.default;
     Parameters.cost := Parameters.cost Parameters.default;
     Parameters.lim := [0.1; -0.1] :: tl (Parameters.lim Parameters.default) |}.

Definition no_particle : Parameters.t :=
  {| Parameters.numParticles := 0;
     Parameters.maxIter := Parameters.maxIter Parameters.default;
     Parameters.maxT := Parameters.maxT Parameters.default;
     Parameters.omega := Parameters.omega Parameters.default;
     Parameters.phi_p := Parameters.phi_p Parameters.default;
     Parameters.phi_g := Parameters.phi_g Parameters.default;
     Parameters.cost := Parameters.cost Parameters.default;
     Parameters.lim := Parameters.lim Parameters.default |}.

Definition three_steps : Parameters.t :=
  {| Parameters.numParticles := Parameters.numParticles Parameters.default;
     Parameters.maxIter := 3;
     Parameters.maxT := Parameters.maxT Parameters.default;
     Parameters.omega := Parameters.omega Parameters.default;
     Parameters.phi_p := Parameters.phi_p Parameters.default;
     Parameters.phi_g := Parameters.phi_g Parameters.default;
     Parameters.cost := Parameters.cost Parameters.default;
     Parameters.lim := Parameters.lim Parameters.default |}.

(** A clock that advances by one second at every reading. *)
Definition ticking : nat -> R := fun c => INR c.

End Sample.

(* ------------------------------------------------------------------ *)
(** ** Vectors *)

Lemma vzip_length (f : R -> R -> R) (a b : Vector) :
  length (vzip f a b) = Nat.min (length a) (length b).
Proof.
  revert b; induction a as [|u a IH]; intros [|v b]; simpl; auto.
Qed.

Lemma vzip_nth (f : R -> R -> R) (a b : Vector) (j : nat) :
  (j < length a)%nat -> (j < length b)%nat ->
  nth j (vzip f a b) 0 = f (nth j a 0) (nth j b 0).
Proof.
  revert b j; induction a as [|u a IH]; intros [|v b] [|j]; simpl; intros;
    try lia; auto.
  apply IH; lia.
Qed.

Lemma vscale_nth (k : R) (a : Vector) (j : nat) :
  nth j (vscale k a) 0 = k * nth j a 0.
Proof.
  revert j; induction a as [|u a IH]; intros [|j]; simpl; auto; lra.
Qed.

Lemma vscale_length (k : R) (a : Vector) : length (vscale k a) = length a.
Proof. apply length_map. Qed.

Lemma vset_length (v : Vector) (i : nat) (a : R) :
  length (vset v i a) = length v.
Proof.
  revert i; induction v as [|b v IH]; intros [|i]; simpl; auto.
Qed.

Lemma Forall_prefix (A : Type) (P : A -> Prop) (n : nat) (l : list A) :
  Forall P l -> Forall P (firstn n l).
Proof.
  intros H; revert n; induction H as [|a l Ha Hl IH]; intros [|n]; simpl;
    constructor; auto.
Qed.

(* ------------------------------------------------------------------ *)
(** ** The default parameters *)

Lemma decimals :
  0.8 = 8 / 10 /\ 0.1 = 1 / 10 /\ 0.0 = 0 /\ 2.0 = 2.
Proof. repeat split; lra. Qed.

(** C9, as stated, fails: the default iteration cap is the [int]
    2147483647, and the iteration count 2147483647 is not below it, so the
    cap is not [+oo]. *)
Lemma default_maxIter_not_infinite :
  Parameters.maxIter Parameters.default = 2147483647%Z /\
  is_int 2147483647 /\
  ~ (2147483647 < Parameters.maxIter Parameters.default)%Z /\
  ~ (spec_defaults Parameters.default /\
     unbounded_cap (Parameters.maxIter Parameters.default)).
Proof.
  assert (Hint : is_int 2147483647) by (unfold is_int, INT_MAX; lia).
  split; [reflexivity|]. split; [exact Hint|].
  split; [simpl; unfold INT_MAX; lia|].
  intros [_ H]. apply H in Hint. simpl in Hint. unfold INT_MAX in Hint. lia.
Qed.

(** C9, amended: a default-constructed [Parameters] has numParticles = 20,
    maxIter = INT_MAX = 2147483647 (the largest [int], which every other
    [int] is below), maxT = +oo, omega = 0.8, phi_p = 0.1, phi_g = 0.1,
    cost threshold 0.0 and the 6x2 bounds of the specification. *)
Theorem default_parameters :
  spec_defaults Parameters.default /\
  Parameters.maxIter Parameters.default = 2147483647%Z /\
  is_int (Parameters.maxIter Parameters.default) /\
  (forall it : Z, is_int it -> (it <= Parameters.maxIter Parameters.default)%Z) /\
  rows (Parameters.lim Parameters.default) = 6%nat /\
  Forall (fun row => length row = 2%nat) (Parameters.lim Parameters.default).
Proof.
  destruct decimals as (E8 & E1 & E0 & E2).
  unfold spec_defaults, spec_bounds, is_int, rows; simpl.
  repeat split; try reflexivity; try assumption;
    try (unfold INT_MAX in *; lia).
  - unfold M_PI.
    repeat match goal with
           | |- (_ :: _) = (_ :: _) => f_equal
           end; lra.
  - repeat constructor.
Qed.

(* ------------------------------------------------------------------ *)
(** ** getExtrinsics and evaluate *)

Section Cost.

Context {L : CtrlMath}.

Lemma getExtrinsics_six (x : Vector) (A B : Matrix) :
  length x = 6%nat ->
  getExtrinsics x A B =
    (true,
     setCol 3 (pos_translation (vset (vset x 0 (- vget x 0)) 5 (- vget x 5)))
       (rpy2dcm (skipn 3 (vset (vset x 0 (- vget x 0)) 5 (- vget x 5)))),
     setCol 3 (pos_translation x) (rpy2dcm (skipn 3 x))).
Proof.
  intros Hlen.
  destruct x as [|a [|b [|c [|d [|e [|f [|]]]]]]]; try discriminate Hlen.
  reflexivity.
Qed.

(** C5: for a 6-vector [x], the left transform computed from [x] is the
    right transform computed from the vector [y] that has the components 0
    and 5 of [x] negated and the others equal. *)
Theorem getExtrinsics_mirror (x y : Vector) (A B A' B' : Matrix) :
  length x = 6%nat -> mirrored x y ->
  let '(ok, Hl, _) := getExtrinsics x A B in
  let '(ok', _, Hr') := getExtrinsics y A' B' in
  ok = true /\ ok' = true /\ Hl = Hr'.
Proof.
  intros Hlen (Hlen' & H0 & H5 & Hrest).
  rewrite Hlen in Hlen'.
  rewrite (getExtrinsics_six x A B Hlen), (getExtrinsics_six y A' B' Hlen').
  repeat split.
  destruct x as [|a [|b [|c [|d [|e [|f [|]]]]]]]; try discriminate Hlen.
  destruct y as [|a' [|b' [|c' [|d' [|e' [|f' [|]]]]]]]; try discriminate Hlen'.
  pose proof (Hrest 1%nat) as H1. pose proof (Hrest 2%nat) as H2.
  pose proof (Hrest 3%nat) as H3. pose proof (Hrest 4%nat) as H4.
  unfold vget in *; simpl in *.
  rewrite H0, H5, H1, H2, H3, H4 by discriminate.
  reflexivity.
Qed.

Lemma fold_accumulate (pos : Vector) (Hl Hr : Matrix)
    (data : list CalibrationData) (c0 : R) :
  fold_left (accumulate pos Hl Hr) data c0 =
  c0 + Rsum (map (fun d => misfit Hl Hr d + 0.1 * norm (pos_translation pos))
               data).
Proof.
  revert c0; induction data as [|d data IH]; intros c0; simpl.
  - lra.
  - rewrite IH. unfold accumulate, misfit, predicted, translation,
      pos_translation, subVector; simpl. lra.
Qed.

Lemma evaluate_cost_mean (pos : Vector) (data : list CalibrationData) :
  data <> [] ->
  evaluate_cost data pos =
  let '(_, Hl, Hr) := getExtrinsics pos [] [] in
  / INR (length data) *
  Rsum (map (fun d => misfit Hl Hr d + 0.1 * norm (pos_translation pos)) data).
Proof.
  intros Hne. unfold evaluate_cost.
  destruct (getExtrinsics pos [] []) as [[ok Hl] Hr].
  destruct data as [|d data]; [congruence|].
  change (0 <? length (d :: data))%nat with true; cbv iota.
  rewrite fold_accumulate. unfold Rdiv. lra.
Qed.

Lemma Rsum_plus_const (A : Type) (f : A -> R) (c : R) (l : list A) :
  Rsum (map (fun a => f a + c) l) = Rsum (map f l) + INR (length l) * c.
Proof.
  induction l as [|a l IH].
  - simpl. lra.
  - change (Rsum (map (fun a => f a + c) (a :: l)))
      with (f a + c + Rsum (map (fun a => f a + c) l)).
    change (Rsum (map f (a :: l))) with (f a + Rsum (map f l)).
    rewrite IH. change (length (a :: l)) with (S (length l)).
    rewrite S_INR. lra.
Qed.

(** C4: for a particle with a 6-component position and a store of [N > 0]
    samples, [evaluate] leaves in [particle.cost], and returns,
    [(1/N) * sum_i (|t(fundamental_i) - t(D_i)| + |rpy(fundamental_i) - rpy(D_i)|
    + 0.1 |pos[0:3]|)], where [D_i = inverse(eye_kin_right_i * Hr) *
    (eye_kin_left_i * Hl)] and [Hl], [Hr] are what [getExtrinsics] computes
    from the position. *)
Theorem evaluate_formula (data : list CalibrationData) (particle : Particle.t)
    (A B : Matrix) :
  length (Particle.pos particle) = 6%nat -> data <> [] ->
  let pos := Particle.pos particle in
  let '(ok, Hl, Hr) := getExtrinsics pos A B in
  let D i := mmul (SE3inv (mmul (eye_kin_right i) Hr))
                  (mmul (eye_kin_left i) Hl) in
  let c := 1 / INR (length data) *
           Rsum (map (fun i =>
                        norm (vsub (translation (fundamental i))
                                   (translation (D i)))
                        + norm (vsub (dcm2rpy (fundamental i)) (dcm2rpy (D i)))
                        + 0.1 * norm (pos_translation pos)) data) in
  ok = true /\
  evaluate data particle = (Particle.set_cost particle (Fin c), c).
Proof.
  intros Hlen Hne pos.
  unfold evaluate. fold pos.
  rewrite (evaluate_cost_mean pos data Hne).
  unfold pos at 1 2. rewrite !getExtrinsics_six by assumption.
  fold pos. cbv zeta.
  split; [reflexivity|].
  unfold misfit, predicted. unfold Rdiv. rewrite Rmult_1_l. reflexivity.
Qed.

Lemma evaluate_regularisation_eq (data : list CalibrationData) (pos : Vector) :
  data <> [] ->
  let '(_, Hl, Hr) := getExtrinsics pos [] [] in
  evaluate_cost data pos =
  / INR (length data) * Rsum (map (misfit Hl Hr) data)
  + 0.1 * norm (pos_translation pos).
Proof.
  intros Hne. rewrite (evaluate_cost_mean pos data Hne).
  destruct (getExtrinsics pos [] []) as [[ok Hl] Hr].
  rewrite Rsum_plus_const.
  assert (HN : INR (length data) <> 0).
  { apply not_0_INR. destruct data; [congruence | discriminate]. }
  field. exact HN.
Qed.

(** C10: for a non-empty store, the cost computed by [evaluate] is the mean
    misfit of the samples plus [0.1 |pos[0:3]|]: the share of the
    regularisation term is that value, whatever the number of samples. *)
Theorem evaluate_regularisation (data : list CalibrationData) (pos : Vector) :
  data <> [] ->
  let '(_, Hl, Hr) := getExtrinsics pos [] [] in
  evaluate_cost data pos =
  / INR (length data) * Rsum (map (misfit Hl Hr) data)
  + 0.1 * norm (pos_translation pos).
Proof.
  intros Hne. rewrite (evaluate_cost_mean pos data Hne).
  destruct (getExtrinsics pos [] []) as [[ok Hl] Hr].
  rewrite Rsum_plus_const.
  assert (HN : INR (length data) <> 0).
  { apply not_0_INR. destruct data; [congruence | discriminate]. }
  field. exact HN.
Qed.

End Cost.

Lemma getExtrinsics_mirror_witness :
  let x := [1; 2; 3; 4; 5; 6] in
  let y := [-1; 2; 3; 4; 5; -6] in
  let '(ok, Hl, _) := getExtrinsics (L := Sample.math) x [] [] in
  let '(ok', _, Hr') := getExtrinsics (L := Sample.math) y [] [] in
  ok = true /\ ok' = true /\ Hl = Hr'.
Proof.
  apply (getExtrinsics_mirror (L := Sample.math)
           [1; 2; 3; 4; 5; 6] [-1; 2; 3; 4; 5; -6] [] [] [] []).
  - reflexivity.
  - unfold mirrored, vget; simpl. repeat split; try reflexivity.
    intros [|[|[|[|[|[|[|j]]]]]]] Hj0 Hj5; try reflexivity; congruence.
Defined.

Lemma evaluate_formula_witness :
  length (Particle.pos Particle.default) = 6%nat /\
  [Sample.sample] <> [] /\
  exists c : R,
    evaluate (L := Sample.math) [Sample.sample] Particle.default =
    (Particle.set_cost Particle.default (Fin c), c).
Proof.
  assert (Hne : [Sample.sample] <> []) by discriminate.
  split; [reflexivity | split; [exact Hne |]].
  generalize (evaluate_formula (L := Sample.math) [Sample.sample]
                Particle.default [] [] eq_refl Hne).
  cbv zeta.
  destruct (getExtrinsics (Particle.pos Particle.default) [] [])
    as [[ok Hl] Hr].
  intros [_ H]. eexists. exact H.
Defined.

Lemma evaluate_regularisation_witness :
  [Sample.sample] <> [] /\
  exists m : R,
    evaluate_cost (L := Sample.math) [Sample.sample] (vconst 6 0.0) =
    m + 0.1 * norm (pos_translation (vconst 6 0.0)).
Proof.
  assert (Hne : [Sample.sample] <> []) by discriminate.
  split; [exact Hne |].
  generalize (evaluate_regularisation (L := Sample.math) [Sample.sample]
                (vconst 6 0.0) Hne).
  destruct (getExtrinsics (vconst 6 0.0) [] []) as [[ok Hl] Hr].
  intros H. eexists. exact H.
Defined.

(* ------------------------------------------------------------------ *)
(** ** The order of costs *)

Lemma xle_refl (a : xreal) : xle a a.
Proof. destruct a; simpl; auto; lra. Qed.

Lemma xle_trans (a b c : xreal) : xle a b -> xle b c -> xle a c.
Proof. destruct a, b, c; simpl; intros; auto; try lra; contradiction. Qed.

Lemma xlt_xle (a b : xreal) : xlt a b -> xle a b.
Proof. destruct a, b; simpl; intros; auto; lra. Qed.

Lemma not_xlt_xle (a b : xreal) : ~ xlt a b -> xle b a.
Proof. destruct a, b; simpl; intros; auto; try lra; tauto. Qed.

Lemma xlt_trans (a b c : xreal) : xlt a b -> xlt b c -> xlt a c.
Proof. destruct a, b, c; simpl; intros; auto; try lra; contradiction. Qed.

Create HintDb cost.

#[local] Hint Resolve xle_refl xlt_xle not_xlt_xle : cost.

(* ------------------------------------------------------------------ *)
(** ** The best costs *)

Section Best.

Context {L : CtrlMath}.
Variable uniform : nat -> R.

Lemma kept_lower (data_ : list CalibrationData) (g g' pi : Particle.t) :
  xle (Particle.cost g') (Particle.cost g) -> kept data_ g pi -> kept data_ g' pi.
Proof.
  intros Hle [H1 H2]. split; [eapply xle_trans; eauto | exact H2].
Qed.

Lemma init_loop_kept (data_ : list CalibrationData) (ps : list Particle.t)
    (g : Particle.t) :
  let (ps', g') := init_loop data_ ps g in
  xle (Particle.cost g') (Particle.cost g) /\ Forall (kept data_ g') ps'.
Proof.
  revert g; induction ps as [|pi ps IH]; intros g; simpl.
  - split; [apply xle_refl | constructor].
  - set (c := evaluate_cost data_ (Particle.pos pi)).
    match goal with
    | |- context [init_loop data_ ps ?G] => set (g1 := G)
    end.
    specialize (IH g1). destruct (init_loop data_ ps g1) as [ps' g'].
    destruct IH as [Hle Hall].
    assert (Hg1 : xle (Particle.cost g1) (Particle.cost g) /\
                  xle (Particle.cost g1) (Fin c)).
    { unfold g1. destruct (xlt_dec (Fin c) (Particle.cost g)).
      - split; [apply xlt_xle; assumption | apply xle_refl].
      - split; [apply xle_refl | apply not_xlt_xle; assumption]. }
    destruct Hg1 as [Hg Hc].
    split; [eapply xle_trans; eauto|].
    constructor; [|exact Hall].
    split; simpl; [eapply xle_trans; eauto | reflexivity].
Qed.

Lemma update_particle_kept (s : Optimizer) (xi pi g : Particle.t) (k : nat) :
  kept (data s) g pi ->
  let '(xi', pi', g') := fst (update_particle uniform s xi pi g k) in
  xle (Particle.cost g') (Particle.cost g) /\ kept (data s) g' pi' /\
  Particle.cost xi' = Fin (evaluate_cost (data s) (Particle.pos xi')) /\
  (pi' = pi \/ pi' = xi').
Proof.
  intros [Hle Hcost]. unfold update_particle, bind.
  destruct (Rand_vector uniform (rand_min s) (rand_max s) k) as [r1 k1].
  destruct (Rand_vector uniform (rand_min s) (rand_max s) k1) as [r2 k2].
  cbv zeta. unfold evaluate.
  match goal with
  | |- context [xlt_dec (Fin ?c) (Particle.cost pi)] => set (f := c)
  end.
  destruct (xlt_dec (Fin f) (Particle.cost pi)) as [Hp|Hp].
  - destruct (xlt_dec (Fin f) (Particle.cost g)) as [Hg|Hg]; cbn [fst].
    + split; [auto with cost|]. split; [|split; [reflexivity | right; reflexivity]].
      split; [apply xle_refl | reflexivity].
    + split; [auto with cost|]. split; [|split; [reflexivity | right; reflexivity]].
      split; [apply not_xlt_xle; exact Hg | reflexivity].
  - cbn [fst]. split; [auto with cost|].
    split; [split; assumption | split; [reflexivity | left; reflexivity]].
Qed.

Lemma step_loop_kept (s : Optimizer) (xs ps : list Particle.t)
    (g : Particle.t) (k : nat) :
  Forall (kept (data s) g) ps ->
  let '(xs', ps', g') := fst (step_loop uniform s xs ps g k) in
  xle (Particle.cost g') (Particle.cost g) /\ Forall (kept (data s) g') ps' /\
  Forall2 (fun pi pi' => pi' = pi \/ In pi' xs') ps ps'.
Proof.
  revert ps g k; induction xs as [|xi xs IH]; intros ps g k Hall.
  - simpl. repeat split; auto with cost.
    clear Hall. induction ps; constructor; auto.
  - destruct ps as [|pi ps].
    + simpl. repeat split; auto with cost.
    + inversion Hall as [|? ? Hpi Hps]; subst.
      simpl. unfold bind.
      pose proof (update_particle_kept s xi pi g k Hpi) as Hu.
      destruct (update_particle uniform s xi pi g k) as [[[xi' pi'] g1] k1].
      simpl in Hu. destruct Hu as (Hle1 & Hk1 & _ & Hor).
      assert (Hps1 : Forall (kept (data s) g1) ps).
      { eapply Forall_impl; [|exact Hps]. intros q. apply kept_lower; auto. }
      specialize (IH ps g1 k1 Hps1).
      destruct (step_loop uniform s xs ps g1 k1) as [[[xs' ps'] g'] k'].
      simpl in IH |- *. destruct IH as (Hle & Hall' & Hf2).
      repeat split.
      * eapply xle_trans; eauto.
      * constructor; [eapply kept_lower; eauto | exact Hall'].
      * constructor.
        -- destruct Hor as [->| ->]; [left | right; left]; reflexivity.
        -- eapply Forall2_impl; [|exact Hf2].
           intros a b [->|Hin]; [left | right; right]; auto.
Qed.

Lemma step_unfold (now : R) (s : Optimizer) (k : nat) :
  step uniform now s k =
  let (sm, k1) := step_particles uniform s k in
  let (sb, k2) := step_scatter uniform sm k1 in
  (step_term now (fst sb), k2).
Proof.
  unfold step, bind.
  destruct (step_particles uniform s k) as [sm k1].
  destruct (step_scatter uniform sm k1) as [[sc b] k2]. reflexivity.
Qed.

Lemma only_x_changed_refl (s : Optimizer) : only_x_changed s s.
Proof. unfold only_x_changed; tauto. Qed.

Lemma randomize_frame (s : Optimizer) (k : nat) :
  only_x_changed s (fst (randomize uniform s k)).
Proof.
  unfold randomize, bind.
  destruct (mapR _ (x s) k) as [x' k'].
  unfold only_x_changed; simpl; tauto.
Qed.

Lemma step_scatter_frame (s : Optimizer) (k : nat) :
  only_x_changed s (fst (fst (step_scatter uniform s k))).
Proof.
  unfold step_scatter.
  destruct (Z.rem (iter s) 100 =? 0)%Z; [|apply only_x_changed_refl].
  destruct (Rlt_dec (mean_distance s) 0.005); [|apply only_x_changed_refl].
  unfold bind. pose proof (randomize_frame s k) as H.
  destruct (randomize uniform s k) as [s' k']. exact H.
Qed.

Lemma step_particles_fields (s : Optimizer) (k : nat) :
  let sm := fst (step_particles uniform s k) in
  let r := fst (step_loop uniform s (x s) (p s) (g s) k) in
  data sm = data s /\ parameters sm = parameters s /\
  x sm = fst (fst r) /\ p sm = snd (fst r) /\ g sm = snd r /\
  rand_min sm = rand_min s /\ rand_max sm = rand_max s /\
  iter sm = (iter s + 1)%Z /\ t0 sm = t0 s.
Proof.
  unfold step_particles, bind.
  destruct (step_loop uniform s (x s) (p s) (g s) k) as [[[x' p'] g'] k'].
  simpl. tauto.
Qed.

Lemma step_fields (now : R) (s : Optimizer) (k : nat) :
  let sm := fst (step_particles uniform s k) in
  let s' := snd (fst (step uniform now s k)) in
  data s' = data s /\ parameters s' = parameters s /\
  p s' = p sm /\ g s' = g sm /\
  rand_min s' = rand_min s /\ rand_max s' = rand_max s /\
  iter s' = (iter s + 1)%Z.
Proof.
  rewrite step_unfold.
  pose proof (step_particles_fields s k) as Hm.
  destruct (step_particles uniform s k) as [sm k1].
  pose proof (step_scatter_frame sm k1) as Hs.
  destruct (step_scatter uniform sm k1) as [[sc b] k2].
  cbv zeta in Hm. simpl in *.
  unfold only_x_changed in Hs.
  destruct Hm as (? & ? & ? & ? & ? & ? & ? & ? & ?).
  destruct Hs as (? & ? & ? & ? & ? & ? & ? & ? & ?).
  repeat split; congruence.
Qed.

Lemma init_fields (now : R) (s : Optimizer) (k : nat) :
  let s1 := fst (init uniform now s k) in
  data s1 = data s /\ parameters s1 = parameters s /\
  rand_min s1 = rand_min s /\ rand_max s1 = rand_max s /\
  init_loop (data s) (x s1) (g s) = (p s1, g s1).
Proof.
  unfold init, bind.
  match goal with
  | |- context [randomize uniform ?S k] =>
      pose proof (randomize_frame S k) as Hr;
      destruct (randomize uniform S k) as [sr kr]
  end.
  unfold only_x_changed in Hr; simpl in Hr.
  destruct Hr as (Hd & Hp & _ & Hg & Hmin & Hmax & _).
  rewrite Hd, Hg.
  destruct (init_loop (data s) (x sr) (g s)) as [p1 g1] eqn:Hloop. simpl.
  repeat split; auto.
Qed.

Lemma reachable_data (data_ : list CalibrationData) (pars : Parameters.t)
    (s : Optimizer) :
  reachable uniform data_ pars s -> data s = data_ /\ parameters s = pars.
Proof.
  induction 1 as [iter_ t_ t0_ now k | s now k Hs [IHd IHp]].
  - pose proof (init_fields now
                  (set_parameters (Optimizer_new data_ iter_ t_ t0_) pars) k)
      as H.
    cbv zeta in H. destruct H as (Hd & Hp & _). split; assumption.
  - pose proof (step_fields now s k) as H. cbv zeta in H.
    destruct H as (Hd & Hp & _). split; congruence.
Qed.

Lemma step_loop_origin (s : Optimizer) (xs ps : list Particle.t)
    (g : Particle.t) (k : nat) :
  let '(xs', ps', _) := fst (step_loop uniform s xs ps g k) in
  forall (i : nat) (pi' : Particle.t),
    nth_error ps' i = Some pi' ->
    nth_error ps i = Some pi' \/ nth_error xs' i = Some pi'.
Proof.
  revert ps g k; induction xs as [|xi xs IH]; intros ps g k.
  - simpl. auto.
  - destruct ps as [|pi ps]; [simpl; auto|].
    simpl. unfold bind.
    assert (Hu : let '(xi', pi', _) := fst (update_particle uniform s xi pi g k)
                 in pi' = pi \/ pi' = xi').
    { unfold update_particle, bind.
      destruct (Rand_vector uniform (rand_min s) (rand_max s) k) as [r1 k1].
      destruct (Rand_vector uniform (rand_min s) (rand_max s) k1) as [r2 k2].
      cbv zeta. unfold evaluate.
      repeat match goal with
             | |- context [xlt_dec ?a ?b] => destruct (xlt_dec a b)
             end; cbn [fst];
        first [left; reflexivity | right; reflexivity]. }
    destruct (update_particle uniform s xi pi g k) as [[[xi' pi'] g1] k1].
    specialize (IH ps g1 k1).
    destruct (step_loop uniform s xs ps g1 k1) as [[[xs' ps'] g'] k'].
    simpl in *. intros [|i] q Hq; simpl in *.
    + inversion Hq; subst. destruct Hu as [->| ->]; auto.
    + apply IH; assumption.
Qed.

Lemma init_loop_copies (data_ : list CalibrationData) (ps : list Particle.t)
    (g : Particle.t) :
  fst (init_loop data_ ps g) =
  map (fun xi => Particle.set_cost xi
                   (Fin (evaluate_cost data_ (Particle.pos xi)))) ps.
Proof.
  revert g; induction ps as [|pi ps IH]; intros g; [reflexivity|].
  simpl.
  match goal with
  | |- context [init_loop data_ ps ?G] => specialize (IH G);
      destruct (init_loop data_ ps G) as [ps' g']
  end.
  simpl in IH |- *. rewrite IH. reflexivity.
Qed.

(** C1: in every state reached by [init()] and any number of [step()]
    calls, the cost of the global best is at most the cost of every personal
    best, and the cost recorded in a personal best is the cost of the
    position recorded with it. A personal best is set by [init()] to the
    particle [x[i]] with its cost evaluated, and changes in the particle
    loop of a step only by becoming the particle [x[i]] as just evaluated. *)
Theorem best_cost_invariant (data_ : list CalibrationData)
    (pars : Parameters.t) (s : Optimizer) :
  reachable uniform data_ pars s ->
  (forall (i : nat) (pi : Particle.t),
      nth_error (p s) i = Some pi ->
      xle (Particle.cost (g s)) (Particle.cost pi) /\
      Particle.cost pi = Fin (evaluate_cost data_ (Particle.pos pi))) /\
  (forall (k i : nat) (pi' : Particle.t),
      let sm := fst (step_particles uniform s k) in
      nth_error (p sm) i = Some pi' ->
      nth_error (p s) i = Some pi' \/
      (nth_error (x sm) i = Some pi' /\
       Particle.cost pi' = Fin (evaluate_cost data_ (Particle.pos pi')))) /\
  (forall (iter_ : Z) (t_ t0_ now : R) (k : nat),
      let s1 := fst (init uniform now
                       (set_parameters (Optimizer_new data_ iter_ t_ t0_) pars)
                       k) in
      p s1 = map (fun xi => Particle.set_cost xi
                              (Fin (evaluate_cost data_ (Particle.pos xi))))
                 (x s1)).
Proof.
  intros Hreach.
  assert (Hinv : Forall (kept data_ (g s)) (p s)).
  { induction Hreach as [iter_ t_ t0_ now k | s now k Hs IH].
    - pose proof (init_fields now
                    (set_parameters (Optimizer_new data_ iter_ t_ t0_) pars) k)
        as H.
      cbv zeta in H. destruct H as (_ & _ & _ & _ & Hloop).
      match type of Hloop with
      | init_loop ?d ?l ?g0 = _ => pose proof (init_loop_kept d l g0) as Hk
      end.
      rewrite Hloop in Hk. destruct Hk as [_ Hk]. exact Hk.
    - destruct (reachable_data _ _ _ Hs) as [Hd _].
      pose proof (step_fields now s k) as H. cbv zeta in H.
      destruct H as (_ & _ & Hp & Hg & _).
      pose proof (step_particles_fields s k) as Hm. cbv zeta in Hm.
      destruct Hm as (_ & _ & _ & Hp' & Hg' & _).
      rewrite Hp, Hg, Hp', Hg'.
      rewrite <- Hd in IH.
      pose proof (step_loop_kept s (x s) (p s) (g s) k IH) as Hk.
      destruct (fst (step_loop uniform s (x s) (p s) (g s) k))
        as [[xs' ps'] g'].
      simpl. rewrite <- Hd. tauto. }
  destruct (reachable_data _ _ _ Hreach) as [Hd _].
  split; [|split].
  - intros i pi Hi.
    rewrite Forall_forall in Hinv.
    apply (Hinv pi). eapply nth_error_In; eauto.
  - intros k i pi' sm Hi.
    pose proof (step_particles_fields s k) as Hm. cbv zeta in Hm.
    destruct Hm as (_ & _ & Hx' & Hp' & Hg' & _).
    fold sm in Hx', Hp', Hg'.
    rewrite <- Hd in Hinv.
    pose proof (step_loop_kept s (x s) (p s) (g s) k Hinv) as Hk.
    pose proof (step_loop_origin s (x s) (p s) (g s) k) as Ho.
    destruct (fst (step_loop uniform s (x s) (p s) (g s) k))
      as [[xs' ps'] g'].
    simpl in Hx', Hp', Hg'. rewrite Hp' in Hi. rewrite Hx'.
    destruct (Ho i pi' Hi) as [Hold|Hnew]; [left; exact Hold|].
    right. split; [exact Hnew|].
    destruct Hk as (_ & Hall & _).
    rewrite Forall_forall in Hall.
    rewrite <- Hd. apply (Hall pi'). eapply nth_error_In; eauto.
  - intros iter_ t_ t0_ now k s1.
    pose proof (init_fields now
                  (set_parameters (Optimizer_new data_ iter_ t_ t0_) pars) k)
      as H.
    cbv zeta in H. fold s1 in H. destruct H as (_ & _ & _ & _ & Hloop).
    pose proof (init_loop_copies data_ (x s1) Particle.default) as Hc.
    cbn [data set_parameters Optimizer_new g] in Hloop.
    rewrite Hloop in Hc. exact Hc.
Qed.

End Best.

(* ------------------------------------------------------------------ *)
(** ** The shape of the swarm and the bounds of the positions *)

Section Shape.

Context {L : CtrlMath}.
Variable uniform : nat -> R.

Lemma six_default : six Particle.default.
Proof. split; reflexivity. Qed.

Lemma six_set_cost (q : Particle.t) (c : xreal) :
  six q -> six (Particle.set_cost q c).
Proof. intros H; exact H. Qed.

Lemma randomize_particle_six (lim : Matrix) (q : Particle.t) (k : nat) :
  six q ->
  randomize_particle uniform lim q k =
  ({| Particle.pos := scatter_pos uniform lim k;
      Particle.vel := scatter_vel uniform k;
      Particle.cost := Particle.cost q |}, (12 + k)%nat).
Proof.
  destruct q as [pos vel c]. intros [Hp Hv]; simpl in Hp, Hv.
  destruct pos as [|a0 [|a1 [|a2 [|a3 [|a4 [|a5 [|]]]]]]]; try discriminate Hp.
  destruct vel as [|b0 [|b1 [|b2 [|b3 [|b4 [|b5 [|]]]]]]]; try discriminate Hv.
  reflexivity.
Qed.

Lemma scatter_six (lim : Matrix) (k : nat) (c : xreal) :
  six {| Particle.pos := scatter_pos uniform lim k;
         Particle.vel := scatter_vel uniform k; Particle.cost := c |}.
Proof. split; reflexivity. Qed.

Lemma mapR_randomize (lim : Matrix) (l : list Particle.t) (k : nat) :
  Forall six l ->
  length (fst (mapR (randomize_particle uniform lim) l k)) = length l /\
  forall (i : nat) (q : Particle.t),
    nth_error l i = Some q ->
    nth_error (fst (mapR (randomize_particle uniform lim) l k)) i =
    Some {| Particle.pos := scatter_pos uniform lim (i * 12 + k);
            Particle.vel := scatter_vel uniform (i * 12 + k);
            Particle.cost := Particle.cost q |}.
Proof.
  intros Hall; revert k; induction Hall as [|a l Ha Hall IH]; intros k.
  - split; [reflexivity|]. intros [|i] q Hq; discriminate Hq.
  - cbn [mapR]. unfold bind, ret.
    rewrite (randomize_particle_six lim a k Ha).
    specialize (IH (12 + k)%nat).
    destruct (mapR (randomize_particle uniform lim) l (12 + k)%nat)
      as [bs k'].
    cbn [fst length] in IH |- *. destruct IH as [Hlen Hnth].
    split; [congruence|].
    intros [|i] q Hq; cbn [nth_error] in Hq |- *.
    + inversion Hq; subst. reflexivity.
    + rewrite (Hnth i q Hq).
      replace (i * 12 + (12 + k))%nat with (S i * 12 + k)%nat by lia.
      reflexivity.
Qed.

Lemma randomize_six (s : Optimizer) (k : nat) :
  Forall six (x s) ->
  Forall six (x (fst (randomize uniform s k))) /\
  length (x (fst (randomize uniform s k))) = length (x s).
Proof.
  intros Hall.
  destruct (mapR_randomize (Parameters.lim (parameters s)) (x s) k Hall)
    as [Hlen Hnth].
  unfold randomize, bind.
  destruct (mapR _ (x s) k) as [x' k']. simpl in *.
  split; [|exact Hlen].
  apply Forall_forall. intros q Hq.
  destruct (In_nth_error _ _ Hq) as [i Hi].
  assert (Hlt : (i < length (x s))%nat).
  { rewrite <- Hlen. apply nth_error_Some. congruence. }
  destruct (nth_error (x s) i) as [q0|] eqn:E;
    [|apply nth_error_None in E; lia].
  rewrite (Hnth i q0 E) in Hi. inversion Hi. apply scatter_six.
Qed.

Lemma init_loop_six (data_ : list CalibrationData) (ps : list Particle.t)
    (g : Particle.t) :
  Forall six ps -> six g ->
  let (ps', g') := init_loop data_ ps g in
  Forall six ps' /\ six g' /\ length ps' = length ps.
Proof.
  intros Hall; revert g; induction Hall as [|pi ps Hpi Hall IH]; intros g Hg.
  - simpl. split; [constructor | split; [assumption | reflexivity]].
  - simpl.
    match goal with
    | |- context [init_loop data_ ps ?G] => set (g1 := G)
    end.
    assert (Hg1 : six g1).
    { unfold g1. destruct (xlt_dec _ _); [apply six_set_cost|]; assumption. }
    specialize (IH g1 Hg1). destruct (init_loop data_ ps g1) as [ps' g'].
    destruct IH as (H1 & H2 & H3).
    split; [|split; [exact H2 | simpl; congruence]].
    constructor; [apply six_set_cost; assumption | exact H1].
Qed.

Lemma Rand_vector_unit (k : nat) :
  Rand_vector uniform (vconst 6 0.0) (vconst 6 1.0) k =
  (unit_draws uniform k, (6 + k)%nat).
Proof. reflexivity. Qed.

Lemma unit_draws_nth (k j : nat) :
  (j < 6)%nat -> nth j (unit_draws uniform k) 0 = uniform (j + k)%nat.
Proof.
  intros Hj. unfold unit_draws.
  do 6 (destruct j as [|j]; [simpl; lra|]). lia.
Qed.

(** The particle [x[i]] after the body of the loop. *)
Lemma update_particle_moved (s : Optimizer) (xi pi g : Particle.t) (k : nat) :
  rand_min s = vconst 6 0.0 -> rand_max s = vconst 6 1.0 ->
  let v := new_vel (parameters s) (unit_draws uniform k)
             (unit_draws uniform (6 + k)) xi pi g in
  let xi' := fst (fst (fst (update_particle uniform s xi pi g k))) in
  Particle.vel xi' = v /\
  Particle.pos xi' =
    clamp_pos (Parameters.lim (parameters s)) 0 (vadd (Particle.pos xi) v) /\
  snd (update_particle uniform s xi pi g k) = (12 + k)%nat.
Proof.
  intros Hmin Hmax. unfold update_particle, bind.
  rewrite Hmin, Hmax, !Rand_vector_unit. cbv zeta. unfold evaluate.
  repeat match goal with
         | |- context [xlt_dec ?a ?b] => destruct (xlt_dec a b)
         end; repeat split.
Qed.

Lemma update_particle_bests (s : Optimizer) (xi pi g : Particle.t) (k : nat) :
  let '(xi', pi', g') := fst (update_particle uniform s xi pi g k) in
  (pi' = pi \/ pi' = xi') /\ (g' = g \/ g' = xi').
Proof.
  unfold update_particle, bind.
  destruct (Rand_vector uniform (rand_min s) (rand_max s) k) as [r1 k1].
  destruct (Rand_vector uniform (rand_min s) (rand_max s) k1) as [r2 k2].
  cbv zeta. unfold evaluate.
  repeat match goal with
         | |- context [xlt_dec ?a ?b] => destruct (xlt_dec a b)
         end; cbn [fst]; split;
    first [left; reflexivity | right; reflexivity].
Qed.

Lemma clamp_pos_length (lim : Matrix) (i : nat) (pos : Vector) :
  length (clamp_pos lim i pos) = length pos.
Proof.
  revert i; induction pos as [|v pos IH]; intros i; simpl; auto.
Qed.

Lemma clamp_pos_nth (lim : Matrix) (i j : nat) (pos : Vector) :
  (j < length pos)%nat ->
  nth j (clamp_pos lim i pos) 0 = clamp lim (i + j) (nth j pos 0).
Proof.
  revert i j; induction pos as [|v pos IH]; intros i [|j] Hj; simpl in *;
    try lia.
  - rewrite Nat.add_0_r. reflexivity.
  - rewrite IH by lia. f_equal. lia.
Qed.

Lemma std_max_Rmax (a b : R) : std_max a b = Rmax a b.
Proof.
  unfold std_max, Rmax.
  destruct (Rlt_dec a b), (Rle_dec a b); lra.
Qed.

Lemma std_min_Rmin (a b : R) : std_min a b = Rmin a b.
Proof.
  unfold std_min, Rmin.
  destruct (Rlt_dec b a), (Rle_dec a b); lra.
Qed.

Lemma clamp_Rmin_Rmax (lim : Matrix) (j : nat) (v : R) :
  clamp lim j v = Rmin (Rmax v (mat lim j 0)) (mat lim j 1).
Proof.
  unfold clamp. rewrite std_max_Rmax, std_min_Rmin. reflexivity.
Qed.

Lemma clamp_range (lim : Matrix) (j : nat) (v : R) :
  mat lim j 0 <= mat lim j 1 ->
  mat lim j 0 <= clamp lim j v <= mat lim j 1.
Proof.
  intros Hle. rewrite clamp_Rmin_Rmax.
  unfold Rmin, Rmax.
  destruct (Rle_dec v (mat lim j 0));
    match goal with
    | |- context [Rle_dec ?a ?b] => destruct (Rle_dec a b)
    end; lra.
Qed.

Lemma new_vel_length (pars : Parameters.t) (r1 r2 : Vector)
    (xi pi g : Particle.t) :
  six xi -> six pi -> six g -> length r1 = 6%nat -> length r2 = 6%nat ->
  length (new_vel pars r1 r2 xi pi g) = 6%nat.
Proof.
  intros [Hx Hxv] [Hp _] [Hg _] H1 H2.
  unfold new_vel, vadd, vsub, vmul.
  rewrite !vzip_length, !vscale_length. lia.
Qed.

Lemma new_vel_nth (pars : Parameters.t) (r1 r2 : Vector)
    (xi pi g : Particle.t) (j : nat) :
  six xi -> six pi -> six g -> length r1 = 6%nat -> length r2 = 6%nat ->
  (j < 6)%nat ->
  nth j (new_vel pars r1 r2 xi pi g) 0 =
  Parameters.omega pars * nth j (Particle.vel xi) 0
  + Parameters.phi_p pars * nth j r1 0
    * (nth j (Particle.pos pi) 0 - nth j (Particle.pos xi) 0)
  + Parameters.phi_g pars * nth j r2 0
    * (nth j (Particle.pos g) 0 - nth j (Particle.pos xi) 0).
Proof.
  intros [Hx Hxv] [Hp _] [Hg _] H1 H2 Hj.
  unfold new_vel, vadd, vsub, vmul.
  repeat (rewrite vzip_nth;
          [| rewrite ?vzip_length, ?vscale_length, ?vzip_length; lia
           | rewrite ?vzip_length, ?vscale_length, ?vzip_length; lia]).
  rewrite !vscale_nth. reflexivity.
Qed.

Lemma update_particle_shape (s : Optimizer) (xi pi g : Particle.t) (k : nat) :
  rand_min s = vconst 6 0.0 -> rand_max s = vconst 6 1.0 ->
  six xi -> six pi -> six g ->
  let '(xi', pi', g') := fst (update_particle uniform s xi pi g k) in
  six xi' /\ six pi' /\ six g' /\
  (bounds_ordered (Parameters.lim (parameters s)) ->
   within_bounds (Parameters.lim (parameters s)) (Particle.pos xi')).
Proof.
  intros Hmin Hmax Hx Hp Hg.
  pose proof (update_particle_moved s xi pi g k Hmin Hmax) as Hm.
  pose proof (update_particle_bests s xi pi g k) as Hb.
  destruct (update_particle uniform s xi pi g k) as [[[xi' pi'] g'] k'].
  cbv zeta in Hm. cbn [fst snd] in Hm, Hb |- *.
  destruct Hm as (Hv & Hpos & _). destruct Hb as [Hpi Hgi].
  assert (Hlen : length (new_vel (parameters s) (unit_draws uniform k)
                           (unit_draws uniform (6 + k)) xi pi g) = 6%nat).
  { apply new_vel_length; auto. }
  assert (Hw : length (vadd (Particle.pos xi)
                         (new_vel (parameters s) (unit_draws uniform k)
                            (unit_draws uniform (6 + k)) xi pi g)) = 6%nat).
  { unfold vadd. rewrite vzip_length, Hlen.
    destruct Hx as [-> _]. reflexivity. }
  assert (Hx' : six xi').
  { split; [|congruence]. rewrite Hpos, clamp_pos_length. exact Hw. }
  split; [exact Hx'|].
  split; [destruct Hpi as [->| ->]; assumption|].
  split; [destruct Hgi as [->| ->]; assumption|].
  intros Hord j Hj. destruct Hx' as [Hl6 _]. rewrite Hl6 in Hj.
  unfold vget. rewrite Hpos.
  rewrite clamp_pos_nth by (rewrite Hw; exact Hj).
  apply clamp_range. apply Hord. exact Hj.
Qed.

Lemma step_loop_shape (s : Optimizer) (xs ps : list Particle.t)
    (g : Particle.t) (k : nat) :
  rand_min s = vconst 6 0.0 -> rand_max s = vconst 6 1.0 ->
  Forall six xs -> Forall six ps -> six g -> length ps = length xs ->
  let '(xs', ps', g') := fst (step_loop uniform s xs ps g k) in
  Forall six xs' /\ Forall six ps' /\ six g' /\
  length xs' = length xs /\ length ps' = length ps /\
  (bounds_ordered (Parameters.lim (parameters s)) ->
   Forall (fun xi => within_bounds (Parameters.lim (parameters s))
                       (Particle.pos xi)) xs').
Proof.
  intros Hmin Hmax Hxs; revert ps g k.
  induction Hxs as [|xi xs Hxi Hxs IH]; intros ps g k Hps Hg Hlen.
  - destruct ps; [|discriminate Hlen]. simpl.
    split; [constructor|]. split; [constructor|]. split; [exact Hg|].
    split; [reflexivity|]. split; [reflexivity|]. intros _; constructor.
  - destruct ps as [|pi ps]; [discriminate Hlen|].
    inversion Hps as [|? ? Hpi Hps']; subst.
    simpl. unfold bind.
    pose proof (update_particle_shape s xi pi g k Hmin Hmax Hxi Hpi Hg) as Hu.
    destruct (update_particle uniform s xi pi g k) as [[[xi' pi'] g1] k1].
    cbn [fst] in Hu. destruct Hu as (Hxi' & Hpi' & Hg1 & Hin).
    assert (Hlen' : length ps = length xs) by (simpl in Hlen; lia).
    specialize (IH ps g1 k1 Hps' Hg1 Hlen').
    destruct (step_loop uniform s xs ps g1 k1) as [[[xs' ps'] g'] k'].
    cbn [fst] in IH |- *.
    destruct IH as (H1 & H2 & H3 & H4 & H5 & H6).
    split; [constructor; assumption|]. split; [constructor; assumption|].
    split; [exact H3|]. split; [simpl; congruence|].
    split; [simpl; congruence|].
    intros Hord. constructor; auto.
Qed.

Lemma reachable_well_formed (data_ : list CalibrationData)
    (pars : Parameters.t) (s : Optimizer) :
  reachable uniform data_ pars s -> well_formed s.
Proof.
  induction 1 as [iter_ t_ t0_ now k | s now k Hs IH].
  - set (s0 := set_parameters (Optimizer_new data_ iter_ t_ t0_) pars).
    unfold init, bind.
    match goal with
    | |- context [randomize uniform ?S k] =>
        pose proof (randomize_six S k) as Hr;
        pose proof (randomize_frame uniform S k) as Hf;
        destruct (randomize uniform S k) as [sr kr]
    end.
    cbn [fst x set_x] in Hr.
    destruct Hr as [Hsix Hlen]; [apply Forall_forall; intros q Hq;
      apply repeat_spec in Hq; subst; apply six_default|].
    destruct Hf as (_ & _ & _ & Hg & Hmin & Hmax & _).
    cbn [fst g rand_min rand_max set_x] in Hg, Hmin, Hmax.
    pose proof (init_loop_six (data sr) (x sr) (g sr) Hsix) as Hl.
    rewrite Hg in Hl. specialize (Hl six_default). rewrite <- Hg in Hl.
    destruct (init_loop (data sr) (x sr) (g sr)) as [p1 g1].
    destruct Hl as (Hp1 & Hg1 & Hlen1).
    unfold well_formed; simpl.
    split; [exact Hsix|]. split; [exact Hp1|]. split; [exact Hg1|].
    split; [exact Hlen1|]. split; assumption.
  - destruct IH as (Hx & Hp & Hg & Hlen & Hmin & Hmax).
    rewrite step_unfold.
    pose proof (step_particles_fields uniform s k) as Hm. cbv zeta in Hm.
    pose proof (step_loop_shape s (x s) (p s) (g s) k Hmin Hmax Hx Hp Hg Hlen)
      as Hsh.
    destruct (step_particles uniform s k) as [sm k1].
    destruct (fst (step_loop uniform s (x s) (p s) (g s) k))
      as [[xs' ps'] g'].
    cbn [fst snd] in Hm.
    destruct Hm as (_ & _ & Hxm & Hpm & Hgm & Hminm & Hmaxm & _).
    destruct Hsh as (H1 & H2 & H3 & H4 & H5 & _).
    rewrite <- Hxm in H1, H4. rewrite <- Hpm in H2, H5. rewrite <- Hgm in H3.
    pose proof (step_scatter_frame uniform sm k1) as Hf.
    assert (Hxs : Forall six (x (fst (fst (step_scatter uniform sm k1)))) /\
                  length (x (fst (fst (step_scatter uniform sm k1))))
                  = length (x sm)).
    { unfold step_scatter.
      destruct (Z.rem (iter sm) 100 =? 0)%Z; [|split; auto].
      destruct (Rlt_dec (mean_distance sm) 0.005); [|split; auto].
      unfold bind. pose proof (randomize_six sm k1 H1) as Hr.
      destruct (randomize uniform sm k1) as [s' k']. exact Hr. }
    destruct (step_scatter uniform sm k1) as [[sc b] k2].
    cbn [fst snd] in Hf, Hxs |- *.
    destruct Hf as (_ & _ & Hpc & Hgc & Hminc & Hmaxc & _).
    destruct Hxs as [Hxc Hlc].
    unfold well_formed, step_term; simpl.
    rewrite Hpc, Hgc, Hminc, Hmaxc, Hlc.
    split; [exact Hxc|]. split; [exact H2|]. split; [exact H3|].
    split; [rewrite H5, H4; exact Hlen|].
    split; [rewrite Hminm; exact Hmin | rewrite Hmaxm; exact Hmax].
Qed.

(** Particle [i] is handed to the body of the loop together with the
    global best left by the particles before it, the generator standing
    twelve draws further for each of them. *)
Lemma step_loop_nth (s : Optimizer) (i : nat) (xs ps : list Particle.t)
    (g : Particle.t) (k : nat) (xi pi : Particle.t) :
  rand_min s = vconst 6 0.0 -> rand_max s = vconst 6 1.0 ->
  nth_error xs i = Some xi -> nth_error ps i = Some pi ->
  let '(_, _, gi) :=
    fst (step_loop uniform s (firstn i xs) (firstn i ps) g k) in
  let '(xs', _, _) := fst (step_loop uniform s xs ps g k) in
  nth_error xs' i =
  Some (fst (fst (fst (update_particle uniform s xi pi gi
                         (i * 12 + k)%nat)))).
Proof.
  intros Hmin Hmax.
  revert xs ps g k; induction i as [|i IH]; intros xs ps g k Hx Hp.
  - destruct xs as [|x0 xs]; [discriminate Hx|].
    destruct ps as [|p0 ps]; [discriminate Hp|].
    cbn [nth_error] in Hx, Hp. inversion Hx; inversion Hp; subst.
    cbn [firstn step_loop ret fst Nat.mul Nat.add]. unfold bind.
    destruct (update_particle uniform s xi pi g k) as [[[xi' pi'] g1] k1].
    destruct (step_loop uniform s xs ps g1 k1) as [[[xs' ps'] g'] k'].
    reflexivity.
  - destruct xs as [|x0 xs]; [discriminate Hx|].
    destruct ps as [|p0 ps]; [discriminate Hp|].
    cbn [nth_error] in Hx, Hp.
    cbn [firstn step_loop]. unfold bind.
    pose proof (update_particle_moved s x0 p0 g k Hmin Hmax) as Hm.
    cbv zeta in Hm. destruct Hm as (_ & _ & Hk).
    destruct (update_particle uniform s x0 p0 g k) as [[[x0' p0'] g1] k1].
    cbn [snd] in Hk. subst k1.
    specialize (IH xs ps g1 (12 + k)%nat Hx Hp).
    destruct (step_loop uniform s (firstn i xs) (firstn i ps) g1 (12 + k)%nat)
      as [[[xa pa] gi] ka].
    destruct (step_loop uniform s xs ps g1 (12 + k)%nat)
      as [[[xs' ps'] g'] k'].
    cbn [fst ret nth_error] in IH |- *.
    rewrite IH.
    replace (S i * 12 + k)%nat with (i * 12 + (12 + k))%nat by lia.
    reflexivity.
Qed.

End Shape.

(* ------------------------------------------------------------------ *)
(** ** The steps of a run *)

Section Run.

Context {L : CtrlMath}.
Variable uniform : nat -> R.

(** The generator draws from [[0,1]]. *)
Hypothesis uniform_range : forall n : nat, 0 <= uniform n <= 1.

Lemma Rand_scalar_range (lo hi : R) (k : nat) :
  lo <= hi -> lo <= fst (Rand_scalar uniform lo hi k) <= hi.
Proof.
  intros Hle. unfold Rand_scalar, Rand_scalar01, bind, ret; simpl.
  pose proof (uniform_range k). nra.
Qed.

Lemma scatter_pos_within (lim : Matrix) (k : nat) :
  bounds_ordered lim -> within_bounds lim (scatter_pos uniform lim k).
Proof.
  intros Hord j Hj. change (length (scatter_pos uniform lim k)) with 6%nat in Hj.
  specialize (Hord j Hj). pose proof (uniform_range (j + k)) as Hu.
  unfold vget, scatter_pos.
  do 6 (destruct j as [|j]; [cbn [map seq nth Nat.add] in *; nra|]).
  lia.
Qed.

Lemma scatter_vel_range (k j : nat) :
  ((j < 3)%nat -> -1e-4 <= vget (scatter_vel uniform k) j <= 1e-4) /\
  ((3 <= j < 6)%nat ->
   - DEG2RAD <= vget (scatter_vel uniform k) j <= DEG2RAD).
Proof.
  assert (Hpi : 0 < DEG2RAD).
  { unfold DEG2RAD, M_PI. pose proof PI_RGT_0. lra. }
  pose proof (uniform_range (6 + j + k)) as Hu.
  unfold vget, scatter_vel.
  split; intros Hj.
  - do 3 (destruct j as [|j];
          [cbn [map seq nth Nat.add Nat.ltb Nat.leb] in *; lra|]).
    lia.
  - do 3 (destruct j as [|j]; [lia|]).
    do 3 (destruct j as [|j];
          [cbn [map seq nth Nat.add Nat.ltb Nat.leb] in *; nra|]).
    lia.
Qed.

(** C2: after every completed [step()] in a run, every component of every
    particle's position lies within the configured bounds
    [[lim(j,0), lim(j,1)]], whether the step clamped the position or
    scattered the swarm. *)
Theorem positions_within_bounds (data_ : list CalibrationData)
    (pars : Parameters.t) (s : Optimizer) (now : R) (k : nat) :
  bounds_ordered (Parameters.lim pars) ->
  reachable uniform data_ pars s ->
  forall (i : nat) (xi : Particle.t),
    nth_error (x (snd (fst (step uniform now s k)))) i = Some xi ->
    forall j : nat, (j < 6)%nat ->
      mat (Parameters.lim pars) j 0 <= vget (Particle.pos xi) j
      <= mat (Parameters.lim pars) j 1.
Proof.
  intros Hord Hreach.
  destruct (reachable_data uniform _ _ _ Hreach) as [_ Hpars].
  pose proof (reachable_well_formed uniform _ _ _
                (reachable_step uniform data_ pars s now k Hreach)) as Hwf'.
  destruct (reachable_well_formed uniform _ _ _ Hreach)
    as (Hx & Hp & Hg & Hlen & Hmin & Hmax).
  assert (Hall : Forall (fun xi => within_bounds (Parameters.lim pars)
                                     (Particle.pos xi))
                   (x (snd (fst (step uniform now s k))))).
  { rewrite step_unfold.
    pose proof (step_particles_fields uniform s k) as Hm. cbv zeta in Hm.
    pose proof (step_loop_shape uniform s (x s) (p s) (g s) k
                  Hmin Hmax Hx Hp Hg Hlen) as Hsh.
    destruct (step_particles uniform s k) as [sm k1].
    destruct (fst (step_loop uniform s (x s) (p s) (g s) k))
      as [[xs' ps'] g'].
    cbn [fst snd] in Hm.
    destruct Hm as (_ & Hparm & Hxm & _).
    destruct Hsh as (H1 & _ & _ & _ & _ & Hin).
    rewrite Hpars in Hin. specialize (Hin Hord). rewrite <- Hxm in Hin, H1.
    assert (Hsc : Forall (fun xi => within_bounds (Parameters.lim pars)
                                      (Particle.pos xi))
                    (x (fst (fst (step_scatter uniform sm k1))))).
    { unfold step_scatter.
      destruct (Z.rem (iter sm) 100 =? 0)%Z; [|exact Hin].
      destruct (Rlt_dec (mean_distance sm) 0.005); [|exact Hin].
      unfold randomize, bind, ret.
      destruct (mapR_randomize uniform (Parameters.lim (parameters sm))
                  (x sm) k1 H1) as [Hl Hnth].
      destruct (mapR _ (x sm) k1) as [x' k'].
      cbn [fst x set_x] in *.
      apply Forall_forall. intros q Hq.
      destruct (In_nth_error _ _ Hq) as [i Hi].
      assert (Hlt : (i < length (x sm))%nat).
      { rewrite <- Hl. apply nth_error_Some. congruence. }
      destruct (nth_error (x sm) i) as [q0|] eqn:E;
        [|apply nth_error_None in E; lia].
      rewrite (Hnth i q0 E) in Hi. inversion Hi.
      cbn [Particle.pos]. rewrite Hparm, Hpars.
      apply scatter_pos_within. exact Hord. }
    destruct (step_scatter uniform sm k1) as [[sc b] k2].
    exact Hsc. }
  intros i xi Hi j Hj.
  rewrite Forall_forall in Hall.
  assert (Hin : In xi (x (snd (fst (step uniform now s k)))))
    by (eapply nth_error_In; eauto).
  destruct Hwf' as (Hx' & _).
  rewrite Forall_forall in Hx'. destruct (Hx' xi Hin) as [Hl6 _].
  apply (Hall xi Hin). rewrite Hl6. exact Hj.
Qed.

(** C3: in a step of a run, particle [i] gets the velocity
    [omega*vel + phi_p*r1.*(p[i].pos - pos) + phi_g*r2.*(g.pos - pos)],
    component by component, where [r1] and [r2] are twelve draws of their
    own from [[0,1]] and [g] is the global best when the loop reaches the
    particle; its position becomes [pos + vel'], clamped in every dimension
    to the configured bounds. *)
Theorem velocity_update (data_ : list CalibrationData) (pars : Parameters.t)
    (s : Optimizer) (k i : nat) (xi pi : Particle.t) :
  reachable uniform data_ pars s ->
  nth_error (x s) i = Some xi -> nth_error (p s) i = Some pi ->
  let '(_, _, gb) :=
    fst (step_loop uniform s (firstn i (x s)) (firstn i (p s)) (g s) k) in
  exists xi' : Particle.t,
    nth_error (x (fst (step_particles uniform s k))) i = Some xi' /\
    forall j : nat, (j < 6)%nat ->
      let r1 := uniform (j + (i * 12 + k))%nat in
      let r2 := uniform (j + (6 + (i * 12 + k)))%nat in
      0 <= r1 <= 1 /\ 0 <= r2 <= 1 /\
      vget (Particle.vel xi') j =
        Parameters.omega pars * vget (Particle.vel xi) j
        + Parameters.phi_p pars * r1
          * (vget (Particle.pos pi) j - vget (Particle.pos xi) j)
        + Parameters.phi_g pars * r2
          * (vget (Particle.pos gb) j - vget (Particle.pos xi) j) /\
      vget (Particle.pos xi') j =
        Rmin (Rmax (vget (Particle.pos xi) j + vget (Particle.vel xi') j)
                   (mat (Parameters.lim pars) j 0))
             (mat (Parameters.lim pars) j 1).
Proof.
  intros Hreach Hxi Hpi.
  destruct (reachable_data uniform _ _ _ Hreach) as [_ Hpars].
  destruct (reachable_well_formed uniform _ _ _ Hreach)
    as (Hx & Hp & Hg & Hlen & Hmin & Hmax).
  pose proof (step_loop_nth uniform s i (x s) (p s) (g s) k xi pi
                Hmin Hmax Hxi Hpi) as Hnth.
  assert (Hlenf : length (firstn i (p s)) = length (firstn i (x s))).
  { rewrite !length_firstn, Hlen. reflexivity. }
  pose proof (step_loop_shape uniform s (firstn i (x s)) (firstn i (p s))
                (g s) k Hmin Hmax (Forall_prefix _ _ i _ Hx) (Forall_prefix _ _ i _ Hp)
                Hg Hlenf) as Hsh.
  destruct (fst (step_loop uniform s (firstn i (x s)) (firstn i (p s))
                   (g s) k)) as [[xa pa] gb].
  destruct Hsh as (_ & _ & Hgb & _).
  pose proof (step_particles_fields uniform s k) as Hm. cbv zeta in Hm.
  destruct Hm as (_ & _ & Hxm & _).
  destruct (fst (step_loop uniform s (x s) (p s) (g s) k)) as [[xs' ps'] g'].
  cbn [fst] in Hxm. rewrite Hxm.
  eexists. split; [exact Hnth|].
  assert (Hsx : six xi).
  { rewrite Forall_forall in Hx. apply Hx. eapply nth_error_In; eauto. }
  assert (Hsp : six pi).
  { rewrite Forall_forall in Hp. apply Hp. eapply nth_error_In; eauto. }
  pose proof (update_particle_moved uniform s xi pi gb (i * 12 + k)
                Hmin Hmax) as Hmv.
  cbv zeta in Hmv. destruct Hmv as (Hv & Hpos & _).
  assert (Hnv : forall j : nat, (j < 6)%nat ->
            vget (new_vel (parameters s) (unit_draws uniform (i * 12 + k))
                    (unit_draws uniform (6 + (i * 12 + k))) xi pi gb) j =
            Parameters.omega pars * vget (Particle.vel xi) j
            + Parameters.phi_p pars * uniform (j + (i * 12 + k))%nat
              * (vget (Particle.pos pi) j - vget (Particle.pos xi) j)
            + Parameters.phi_g pars * uniform (j + (6 + (i * 12 + k)))%nat
              * (vget (Particle.pos gb) j - vget (Particle.pos xi) j)).
  { intros j Hj. unfold vget.
    rewrite new_vel_nth by (auto; reflexivity).
    rewrite !unit_draws_nth by exact Hj. rewrite Hpars. reflexivity. }
  intros j Hj. cbv zeta.
  split; [apply uniform_range|]. split; [apply uniform_range|].
  rewrite Hv. split; [apply Hnv; exact Hj|].
  rewrite Hpos. unfold vget at 1.
  assert (Hw : length (vadd (Particle.pos xi)
                         (new_vel (parameters s)
                            (unit_draws uniform (i * 12 + k))
                            (unit_draws uniform (6 + (i * 12 + k)))
                            xi pi gb)) = 6%nat).
  { unfold vadd. rewrite vzip_length, new_vel_length by (auto; reflexivity).
    destruct Hsx as [-> _]. reflexivity. }
  rewrite clamp_pos_nth by (rewrite Hw; exact Hj).
  rewrite clamp_Rmin_Rmax, Hpars. cbn [Nat.add].
  unfold vadd. rewrite vzip_nth;
    [reflexivity | destruct Hsx as [-> _]; exact Hj |].
  rewrite new_vel_length by (auto; reflexivity). exact Hj.
Qed.

Lemma scatter_pos_nth (lim : Matrix) (k j : nat) :
  (j < 6)%nat ->
  vget (scatter_pos uniform lim k) j =
  (mat lim j 1 - mat lim j 0) * uniform (j + k)%nat + mat lim j 0.
Proof.
  intros Hj. unfold vget, scatter_pos.
  do 6 (destruct j as [|j]; [reflexivity|]). lia.
Qed.

Lemma scatter_vel_nth (k j : nat) :
  (j < 6)%nat ->
  vget (scatter_vel uniform k) j =
  if (j <? 3)%nat then (1e-4 - -1e-4) * uniform (6 + j + k)%nat + -1e-4
  else ((1.0 - -1.0) * uniform (6 + j + k)%nat + -1.0) * DEG2RAD.
Proof.
  intros Hj. unfold vget, scatter_vel.
  do 6 (destruct j as [|j]; [reflexivity|]). lia.
Qed.

(** C7: in a step whose iteration count is a multiple of 100 and in which
    the mean distance of the particles from the global best is below 0.005,
    every particle gets a position and a velocity drawn anew (twelve draws
    of its own), while the personal bests and the global best stay as the
    particle loop left them. *)
Theorem scatter_keeps_bests (s : Optimizer) (now : R) (k : nat) :
  well_formed s ->
  let sm := fst (step_particles uniform s k) in
  let k1 := snd (step_particles uniform s k) in
  let s' := snd (fst (step uniform now s k)) in
  let lim := Parameters.lim (parameters s) in
  Z.rem (iter s + 1) 100 = 0%Z ->
  mean_distance sm < 0.005 ->
  p s' = p sm /\ g s' = g sm /\ length (x s') = length (x sm) /\
  forall (i : nat) (xi : Particle.t),
    nth_error (x sm) i = Some xi ->
    exists xi' : Particle.t,
      nth_error (x s') i = Some xi' /\
      Particle.cost xi' = Particle.cost xi /\
      forall j : nat, (j < 6)%nat ->
        let u := uniform (j + (i * 12 + k1))%nat in
        let w := uniform (6 + j + (i * 12 + k1))%nat in
        0 <= u <= 1 /\ 0 <= w <= 1 /\
        vget (Particle.pos xi') j = (mat lim j 1 - mat lim j 0) * u + mat lim j 0 /\
        vget (Particle.vel xi') j =
          if (j <? 3)%nat then (1e-4 - -1e-4) * w + -1e-4
          else ((1.0 - -1.0) * w + -1.0) * DEG2RAD.
Proof.
  intros (Hx & Hp & Hg & Hlen & Hmin & Hmax) sm k1 s' lim Hrem Hmean.
  pose proof (step_fields uniform now s k) as Hf. cbv zeta in Hf.
  fold sm s' in Hf. destruct Hf as (_ & _ & Hps & Hgs & _).
  pose proof (step_particles_fields uniform s k) as Hm. cbv zeta in Hm.
  fold sm in Hm. destruct Hm as (_ & Hparm & Hxm & _ & _ & _ & _ & Him & _).
  pose proof (step_loop_shape uniform s (x s) (p s) (g s) k
                Hmin Hmax Hx Hp Hg Hlen) as Hsh.
  destruct (fst (step_loop uniform s (x s) (p s) (g s) k)) as [[xs' ps'] g'].
  destruct Hsh as (H1 & _). cbn [fst] in Hxm. rewrite <- Hxm in H1.
  assert (Hxs : x s' = fst (mapR (randomize_particle uniform lim) (x sm) k1)).
  { unfold s'. rewrite step_unfold. fold sm k1.
    replace (step_particles uniform s k) with (sm, k1)
      by (unfold sm, k1; destruct (step_particles uniform s k); reflexivity).
    unfold step_scatter. rewrite Him, Hrem. cbn [Z.eqb].
    destruct (Rlt_dec (mean_distance sm) 0.005) as [_|Hn]; [|contradiction].
    unfold randomize, bind, ret. rewrite Hparm. fold lim.
    destruct (mapR (randomize_particle uniform lim) (x sm) k1) as [x' k'].
    reflexivity. }
  destruct (mapR_randomize uniform lim (x sm) k1 H1) as [Hl Hnth].
  rewrite <- Hxs in Hl, Hnth.
  split; [exact Hps|]. split; [exact Hgs|]. split; [exact Hl|].
  intros i xi Hi. eexists. split; [apply (Hnth i xi Hi)|].
  split; [reflexivity|].
  intros j Hj. cbv zeta. cbn [Particle.pos Particle.vel].
  split; [apply uniform_range|]. split; [apply uniform_range|].
  split; [apply scatter_pos_nth | apply scatter_vel_nth]; exact Hj.
Qed.

End Run.

(* ------------------------------------------------------------------ *)
(** ** An empty sample store *)

Section EmptyStore.

Context {L : CtrlMath}.
Variable uniform : nat -> R.

Lemma evaluate_cost_empty (pos : Vector) : evaluate_cost [] pos = 0.
Proof.
  unfold evaluate_cost.
  destruct (getExtrinsics pos [] []) as [[ok Hl] Hr]. simpl. lra.
Qed.

Lemma xltb_irrefl (c : R) : xltb (Fin c) (Fin c) = false.
Proof.
  unfold xltb. destruct (xlt_dec (Fin c) (Fin c)) as [H|H]; [|reflexivity].
  simpl in H. lra.
Qed.

Lemma init_loop_empty (ps : list Particle.t) (g : Particle.t) :
  Particle.cost g = PInf \/ Particle.cost g = Fin 0 ->
  let (ps', g') := init_loop [] ps g in
  Forall (fun pi => Particle.cost pi = Fin 0) ps' /\
  length ps' = length ps /\
  (Particle.cost g = Fin 0 \/ ps <> [] -> Particle.cost g' = Fin 0).
Proof.
  revert g; induction ps as [|pi ps IH]; intros g Hg.
  - simpl. split; [constructor|]. split; [reflexivity|].
    intros [H|H]; [exact H | congruence].
  - simpl. rewrite evaluate_cost_empty.
    match goal with
    | |- context [init_loop [] ps ?G] => set (g1 := G)
    end.
    assert (Hg1 : Particle.cost g1 = Fin 0).
    { unfold g1. destruct (xlt_dec (Fin 0) (Particle.cost g)) as [Hlt|Hlt].
      - reflexivity.
      - destruct Hg as [Hg|Hg]; [|exact Hg].
        rewrite Hg in Hlt. simpl in Hlt. tauto. }
    specialize (IH g1 (or_intror Hg1)).
    destruct (init_loop [] ps g1) as [ps' g'].
    destruct IH as (Hall & Hlen & Hne).
    split; [constructor; [reflexivity | exact Hall]|].
    split; [simpl; congruence|].
    intros _. apply Hne. left. exact Hg1.
Qed.

Lemma step_loop_empty (s : Optimizer) (xs ps : list Particle.t)
    (g : Particle.t) (k : nat) :
  data s = [] -> Particle.cost g = Fin 0 ->
  Particle.cost (snd (fst (step_loop uniform s xs ps g k))) = Fin 0.
Proof.
  intros Hd; revert ps g k; induction xs as [|xi xs IH]; intros ps g k Hg.
  - exact Hg.
  - destruct ps as [|pi ps]; [exact Hg|].
    simpl. unfold bind.
    assert (Hu : Particle.cost
                   (snd (fst (update_particle uniform s xi pi g k))) = Fin 0).
    { unfold update_particle, bind.
      destruct (Rand_vector uniform (rand_min s) (rand_max s) k) as [r1 k1].
      destruct (Rand_vector uniform (rand_min s) (rand_max s) k1) as [r2 k2].
      cbv zeta. unfold evaluate. rewrite Hd, evaluate_cost_empty.
      destruct (xlt_dec (Fin 0) (Particle.cost pi)); [|exact Hg].
      destruct (xlt_dec (Fin 0) (Particle.cost g)) as [Hlt|Hlt]; [|exact Hg].
      rewrite Hg in Hlt. simpl in Hlt. lra. }
    destruct (update_particle uniform s xi pi g k) as [[[xi' pi'] g1] k1].
    cbn [fst snd] in Hu. specialize (IH ps g1 k1 Hu).
    destruct (step_loop uniform s xs ps g1 k1) as [[[xs' ps'] g'] k'].
    exact IH.
Qed.

Lemma init_empty (pars : Parameters.t) (iter_ : Z) (t_ t0_ now : R) (k : nat) :
  (1 <= Parameters.numParticles pars)%Z ->
  let s1 := fst (init uniform now
                   (set_parameters (Optimizer_new [] iter_ t_ t0_) pars) k) in
  length (p s1) = Z.to_nat (Parameters.numParticles pars) /\
  Forall (fun pi => Particle.cost pi = Fin 0) (p s1) /\
  Particle.cost (g s1) = Fin 0.
Proof.
  intros Hn s1.
  set (s0 := set_parameters (Optimizer_new [] iter_ t_ t0_) pars) in *.
  pose proof (init_fields uniform now s0 k) as Hf. cbv zeta in Hf. fold s1 in Hf.
  destruct Hf as (Hd & Hp & _ & _ & Hloop).
  assert (Hlenx : length (x s1) = Z.to_nat (Parameters.numParticles pars)).
  { unfold s1, init, bind.
    match goal with
    | |- context [randomize uniform ?S k] =>
        pose proof (randomize_six uniform S k) as Hr;
        destruct (randomize uniform S k) as [sr kr]
    end.
    cbn [fst x set_x] in Hr.
    destruct Hr as [_ Hlen]; [apply Forall_forall; intros q Hq;
      apply repeat_spec in Hq; subst; apply six_default|].
    destruct (init_loop (data sr) (x sr) (g sr)) as [p1 g1]. simpl.
    rewrite Hlen, repeat_length. reflexivity. }
  pose proof (init_loop_empty (x s1) (g s0) (or_introl eq_refl)) as He.
  change (data s0) with (@nil CalibrationData) in Hloop.
  rewrite Hloop in He. destruct He as (Hall & Hlen & Hg).
  split; [congruence|]. split; [exact Hall|].
  apply Hg. right. intros E. rewrite E in Hlenx. simpl in Hlenx. lia.
Qed.

(** C8: with an empty sample store, a cost threshold of 0 and at least one
    particle, [init()] leaves every personal best and the global best with
    cost exactly 0, and the first [step()] returns false, whatever
    [maxIter], [maxT] and the clock are. *)
Theorem empty_store_stops (pars : Parameters.t) (iter_ : Z) (t_ t0_ now : R)
    (k : nat) :
  (1 <= Parameters.numParticles pars)%Z ->
  Parameters.cost pars = 0 ->
  let s1 := fst (init uniform now
                   (set_parameters (Optimizer_new [] iter_ t_ t0_) pars) k) in
  length (p s1) = Z.to_nat (Parameters.numParticles pars) /\
  (forall (i : nat) (pi : Particle.t),
      nth_error (p s1) i = Some pi -> Particle.cost pi = Fin 0) /\
  Particle.cost (g s1) = Fin 0 /\
  forall (now' : R) (k' : nat), fst (fst (step uniform now' s1 k')) = false.
Proof.
  intros Hn Hc s1.
  set (s0 := set_parameters (Optimizer_new [] iter_ t_ t0_) pars) in *.
  pose proof (init_fields uniform now s0 k) as Hf. cbv zeta in Hf. fold s1 in Hf.
  destruct Hf as (Hd & Hp & _).
  destruct (init_empty pars iter_ t_ t0_ now k Hn) as (Hlen & Hall & Hg1).
  fold s0 s1 in Hlen, Hall, Hg1.
  split; [exact Hlen|].
  split.
  { intros i pi Hi. rewrite Forall_forall in Hall.
    apply Hall. eapply nth_error_In; eauto. }
  split; [exact Hg1|].
  intros now' k'.
  pose proof (step_fields uniform now' s1 k') as Hs. cbv zeta in Hs.
  destruct Hs as (_ & Hpars' & _ & Hg' & _).
  pose proof (step_particles_fields uniform s1 k') as Hm. cbv zeta in Hm.
  destruct Hm as (_ & _ & _ & _ & Hgm & _).
  pose proof (step_loop_empty s1 (x s1) (p s1) (g s1) k' Hd Hg1) as Hz.
  rewrite <- Hgm, <- Hg' in Hz.
  revert Hz Hpars'. rewrite step_unfold.
  destruct (step_particles uniform s1 k') as [sm k1].
  destruct (step_scatter uniform sm k1) as [[sc b] k2].
  cbn [fst snd step_term g parameters]. intros Hz Hpars'.
  rewrite Hz, Hpars', Hp. change (parameters s0) with pars.
  rewrite Hc, xltb_irrefl, andb_false_r. reflexivity.
Qed.

End EmptyStore.

(* ------------------------------------------------------------------ *)
(** ** What finalize() returns *)

Section Finalize.

Context {L : CtrlMath}.
Variable uniform : nat -> R.

Lemma update_particle_best (s : Optimizer) (xi pi g : Particle.t) (k : nat) :
  let '(xi', _, g') := fst (update_particle uniform s xi pi g k) in
  g' = g \/ (g' = xi' /\ xlt (Particle.cost g') (Particle.cost g)).
Proof.
  unfold update_particle, bind.
  destruct (Rand_vector uniform (rand_min s) (rand_max s) k) as [r1 k1].
  destruct (Rand_vector uniform (rand_min s) (rand_max s) k1) as [r2 k2].
  cbv zeta. unfold evaluate.
  destruct (xlt_dec _ (Particle.cost pi)); [|left; reflexivity].
  destruct (xlt_dec _ (Particle.cost g)) as [Hlt|Hlt]; [|left; reflexivity].
  right. split; [reflexivity | exact Hlt].
Qed.

Lemma step_loop_best (s : Optimizer) (xs ps : list Particle.t)
    (g : Particle.t) (k : nat) :
  let '(xs', _, g') := fst (step_loop uniform s xs ps g k) in
  g' = g \/ (In g' xs' /\ xlt (Particle.cost g') (Particle.cost g)).
Proof.
  revert ps g k; induction xs as [|xi xs IH]; intros ps g k.
  - simpl. left; reflexivity.
  - destruct ps as [|pi ps]; [simpl; left; reflexivity|].
    simpl. unfold bind.
    pose proof (update_particle_best s xi pi g k) as Hu.
    destruct (update_particle uniform s xi pi g k) as [[[xi' pi'] g1] k1].
    specialize (IH ps g1 k1).
    destruct (step_loop uniform s xs ps g1 k1) as [[[xs' ps'] g'] k'].
    cbn [fst] in Hu, IH |- *.
    destruct IH as [->|[Hin Hlt]].
    + destruct Hu as [->|[-> Hlt]]; [left; reflexivity|].
      right. split; [left; reflexivity | exact Hlt].
    + right. split; [right; exact Hin|].
      destruct Hu as [->|[_ Hlt1]]; [exact Hlt|].
      eapply xlt_trans; eauto.
Qed.

(** C6, amended: [finalize()] returns a reference to the optimizer's global
    best. Read after a further [step()], it yields the global best of the
    state after that step: the particle it designated at the call, or a
    particle of the swarm of strictly lower cost that has replaced it. *)
Theorem finalize_follows_best (s : Optimizer) (now : R) (k : nat) :
  let s' := snd (fst (step uniform now s k)) in
  deref s (finalize s) = g s /\
  deref s' (finalize s) = g s' /\
  (decoupled s s' \/
   (In (g s') (x (fst (step_particles uniform s k))) /\
    xlt (Particle.cost (g s')) (Particle.cost (g s)))).
Proof.
  intros s'. split; [reflexivity|]. split; [reflexivity|].
  unfold decoupled, finalize, deref.
  pose proof (step_fields uniform now s k) as Hf. cbv zeta in Hf.
  fold s' in Hf. destruct Hf as (_ & _ & _ & Hg & _).
  pose proof (step_particles_fields uniform s k) as Hm. cbv zeta in Hm.
  destruct Hm as (_ & _ & Hxm & _ & Hgm & _).
  pose proof (step_loop_best s (x s) (p s) (g s) k) as Hb.
  destruct (fst (step_loop uniform s (x s) (p s) (g s) k)) as [[xs' ps'] g'].
  cbn [fst snd] in Hxm, Hgm. rewrite Hg, Hgm, Hxm. exact Hb.
Qed.

End Finalize.

(** C6, as stated, fails: the reference returned by [finalize()] on a new
    optimizer reads a particle of cost [+oo]; once [init()] has run (empty
    store, default parameters) it reads the global best of cost 0. *)
Lemma finalize_not_decoupled :
  let s := Optimizer_new [] 0 0 0 in
  let s' := fst (init (L := Sample.math) Sample.half 0 s 0%nat) in
  Particle.cost (deref s (finalize s)) = PInf /\
  Particle.cost (deref s' (finalize s)) = Fin 0 /\
  ~ decoupled s s'.
Proof.
  intros s s'.
  assert (Hn : (1 <= Parameters.numParticles Parameters.default)%Z)
    by (simpl; lia).
  destruct (init_empty (L := Sample.math) Sample.half Parameters.default
              0 0 0 0 0%nat Hn) as (_ & _ & Hg).
  change (set_parameters (Optimizer_new [] 0 0 0) Parameters.default)
    with s in Hg.
  fold s' in Hg.
  split; [reflexivity|]. split; [exact Hg|].
  unfold decoupled, finalize, deref. intros E.
  rewrite E in Hg. discriminate Hg.
Qed.

(* ------------------------------------------------------------------ *)
(** ** The theorems at concrete runs *)

Lemma half_range : forall n : nat, 0 <= Sample.half n <= 1.
Proof. intros n. unfold Sample.half. lra. Qed.

Lemma default_bounds_ordered : bounds_ordered (Parameters.lim Parameters.default).
Proof.
  intros j Hj. pose proof PI_RGT_0 as Hpi.
  unfold mat, M_PI.
  do 6 (destruct j as [|j]; [cbn [Parameters.lim Parameters.default nth];
                             unfold M_PI; lra|]).
  lia.
Qed.

Lemma best_cost_invariant_witness :
  let s := fst (init (L := Sample.math) Sample.half 0
                  (set_parameters (Optimizer_new [Sample.sample] 0 0 0)
                     Parameters.default) 0%nat) in
  exists pi : Particle.t,
    nth_error (p s) 0 = Some pi /\
    xle (Particle.cost (g s)) (Particle.cost pi) /\
    Particle.cost pi =
      Fin (evaluate_cost (L := Sample.math) [Sample.sample] (Particle.pos pi)).
Proof.
  intros s. eexists. split; [reflexivity|].
  refine (proj1 (best_cost_invariant (L := Sample.math) Sample.half
                   [Sample.sample] Parameters.default s
                   (reachable_init Sample.half [Sample.sample]
                      Parameters.default 0 0 0 0 0%nat)) 0%nat _ _).
  reflexivity.
Defined.

Lemma positions_within_bounds_witness :
  let s := fst (init (L := Sample.math) Sample.half 0
                  (set_parameters (Optimizer_new [Sample.sample] 0 0 0)
                     Parameters.default) 0%nat) in
  let s' := snd (fst (step (L := Sample.math) Sample.half 1 s 240%nat)) in
  exists xi : Particle.t,
    nth_error (x s') 7 = Some xi /\
    -0.1 <= vget (Particle.pos xi) 2 <= 0.1.
Proof.
  intros s s'.
  assert (Hlen : (7 < length (x s'))%nat).
  { pose proof (reachable_well_formed (L := Sample.math) Sample.half
                  [Sample.sample] Parameters.default s'
                  (reachable_step Sample.half [Sample.sample]
                     Parameters.default s 1 240%nat
                     (reachable_init Sample.half [Sample.sample]
                        Parameters.default 0 0 0 0 0%nat))) as Hwf.
    destruct Hwf as (_ & _ & _ & Hl & _). rewrite <- Hl.
    pose proof (step_fields (L := Sample.math) Sample.half 1 s 240%nat) as Hf.
    cbv zeta in Hf. destruct Hf as (_ & _ & Hp & _). fold s' in Hp.
    rewrite Hp.
    pose proof (step_particles_fields (L := Sample.math) Sample.half s 240%nat)
      as Hm.
    cbv zeta in Hm. destruct Hm as (_ & _ & _ & Hpm & _). rewrite Hpm.
    pose proof (step_loop_shape (L := Sample.math) Sample.half s (x s) (p s)
                  (g s) 240%nat eq_refl eq_refl) as Hsh.
    destruct (reachable_well_formed (L := Sample.math) Sample.half
                [Sample.sample] Parameters.default s
                (reachable_init Sample.half [Sample.sample]
                   Parameters.default 0 0 0 0 0%nat))
      as (Hx & Hps & Hg & Hl0 & _).
    specialize (Hsh Hx Hps Hg Hl0).
    destruct (fst (step_loop Sample.half s (x s) (p s) (g s) 240%nat))
      as [[xs' ps'] g'].
    destruct Hsh as (_ & _ & _ & _ & Hl5 & _). cbn [fst snd].
    rewrite Hl5. rewrite Hl0.
    change (length (x s)) with 20%nat. lia. }
  destruct (nth_error (x s') 7) as [xi|] eqn:E;
    [|apply nth_error_None in E; lia].
  exists xi. split; [reflexivity|].
  exact (positions_within_bounds (L := Sample.math) Sample.half half_range
           [Sample.sample] Parameters.default s 1 240%nat
           default_bounds_ordered
           (reachable_init Sample.half [Sample.sample] Parameters.default
              0 0 0 0 0%nat)
           7%nat xi E 2%nat (ltac:(lia))).
Defined.

Lemma velocity_update_witness :
  let pars := Parameters.default in
  let s := fst (init (L := Sample.math) Sample.half 0
                  (set_parameters (Optimizer_new [Sample.sample] 0 0 0) pars)
                  0%nat) in
  exists xi pi xi' : Particle.t,
    nth_error (x s) 0 = Some xi /\
    nth_error (p s) 0 = Some pi /\
    nth_error (x (fst (step_particles (L := Sample.math) Sample.half s
                         240%nat))) 0 = Some xi' /\
    vget (Particle.vel xi') 2 =
      Parameters.omega pars * vget (Particle.vel xi) 2
      + Parameters.phi_p pars * Sample.half 242
        * (vget (Particle.pos pi) 2 - vget (Particle.pos xi) 2)
      + Parameters.phi_g pars * Sample.half 248
        * (vget (Particle.pos (g s)) 2 - vget (Particle.pos xi) 2).
Proof.
  intros pars s.
  assert (Ex : exists xi, nth_error (x s) 0 = Some xi)
    by (eexists; reflexivity).
  assert (Ep : exists pi, nth_error (p s) 0 = Some pi)
    by (eexists; reflexivity).
  destruct Ex as [xi Ex]. destruct Ep as [pi Ep].
  pose proof (velocity_update (L := Sample.math) Sample.half half_range
                [Sample.sample] pars s 240%nat 0%nat xi pi
                (reachable_init Sample.half [Sample.sample] pars
                   0 0 0 0 0%nat) Ex Ep) as H.
  cbn [firstn step_loop ret fst] in H.
  destruct H as [xi' [Hn Hj]].
  exists xi, pi, xi'.
  split; [exact Ex|]. split; [exact Ep|]. split; [exact Hn|].
  exact (proj1 (proj2 (proj2 (Hj 2%nat (ltac:(lia)))))).
Defined.

Lemma empty_store_stops_witness :
  let s1 := fst (init (L := Sample.math) Sample.half 0
                   (set_parameters (Optimizer_new [] 0 0 0) Parameters.default)
                   0%nat) in
  Particle.cost (g s1) = Fin 0 /\
  fst (fst (step (L := Sample.math) Sample.half 1 s1 240%nat)) = false.
Proof.
  intros s1.
  assert (Hn : (1 <= Parameters.numParticles Parameters.default)%Z)
    by (simpl; lia).
  assert (Hc : Parameters.cost Parameters.default = 0) by (simpl; lra).
  destruct (empty_store_stops (L := Sample.math) Sample.half
              Parameters.default 0 0 0 0 0%nat Hn Hc) as (_ & _ & Hg & Hstep).
  split; [exact Hg | exact (Hstep 1 240%nat)].
Defined.

Lemma clamp_inside (lim : Matrix) (j : nat) (v : R) :
  mat lim j 0 <= v <= mat lim j 1 -> clamp lim j v = v.
Proof.
  intros [Hlo Hhi]. rewrite clamp_Rmin_Rmax.
  rewrite Rmax_left by exact Hlo. apply Rmin_left. exact Hhi.
Qed.

Lemma norm_vsub_same (a b : Vector) :
  (forall j : nat, nth j a 0 = nth j b 0) -> norm (vsub a b) = 0.
Proof.
  intros H. unfold norm.
  assert (Hd : dot (vsub a b) (vsub a b) = 0).
  { revert b H; induction a as [|u a IH]; intros [|v b] H; try reflexivity.
    pose proof (H 0%nat) as H0. simpl in H0. subst v.
    specialize (IH b (fun j => H (S j))).
    unfold dot, vsub, vmul in *. simpl. rewrite IH. lra. }
  rewrite Hd. apply sqrt_0.
Qed.

Lemma stalled_particles :
  let sm := fst (step_particles (L := Sample.math) Sample.half
                   Sample.stalled 0%nat) in
  p sm = [Sample.still] /\ g sm = Sample.still /\
  exists xq : Particle.t,
    x sm = [xq] /\ forall j : nat, nth j (Particle.pos xq) 0 = 0.
Proof.
  unfold step_particles, bind.
  cbn [step_loop x p g Sample.stalled]. unfold bind.
  unfold update_particle, bind.
  cbn [rand_min rand_max Sample.stalled]. rewrite !Rand_vector_unit.
  cbv zeta. unfold evaluate. cbn [data Sample.stalled].
  rewrite evaluate_cost_empty.
  destruct (xlt_dec (Fin 0) (Particle.cost Sample.still)) as [H|_];
    [simpl in H; lra|].
  cbn [ret fst p g x].
  split; [reflexivity|]. split; [reflexivity|].
  eexists. split; [reflexivity|].
  intros j. pose proof PI_RGT_0 as Hpi.
  cbn [Particle.pos Particle.vel Particle.set_cost Particle.set_pos
       Particle.set_vel Sample.still Sample.stalled parameters clamp_pos
       vadd vsub vmul vzip vscale map new_vel unit_draws seq vconst repeat
       Parameters.lim Parameters.omega Parameters.phi_p Parameters.phi_g
       Parameters.default Nat.add].
  do 6 (destruct j as [|j];
        [cbn [nth]; rewrite clamp_inside;
         [lra | unfold mat, M_PI; cbn [nth]; unfold Sample.half; lra]|]).
  destruct j; reflexivity.
Qed.

Lemma scatter_keeps_bests_witness :
  let s' := snd (fst (step (L := Sample.math) Sample.half 1
                        Sample.stalled 0%nat)) in
  well_formed Sample.stalled /\
  mean_distance (fst (step_particles (L := Sample.math) Sample.half
                        Sample.stalled 0%nat)) < 0.005 /\
  p s' = [Sample.still] /\ g s' = Sample.still /\ length (x s') = 1%nat.
Proof.
  intros s'.
  assert (Hwf : well_formed Sample.stalled).
  { unfold well_formed, six. cbn.
    repeat split; repeat constructor. }
  destruct stalled_particles as (Hp & Hg & xq & Hx & Hz).
  assert (Hmean : mean_distance
                    (fst (step_particles (L := Sample.math) Sample.half
                            Sample.stalled 0%nat)) < 0.005).
  { unfold mean_distance. rewrite Hx, Hg.
    cbn [fold_left length Nat.ltb Nat.leb].
    rewrite norm_vsub_same.
    - cbn [INR]. lra.
    - intros j. rewrite Hz. cbn [Particle.pos Sample.still vconst repeat].
      do 6 (destruct j as [|j]; [cbn [nth]; lra|]).
      destruct j; reflexivity. }
  destruct (scatter_keeps_bests (L := Sample.math) Sample.half half_range
              Sample.stalled 1 0%nat Hwf eq_refl Hmean)
    as (H1 & H2 & H3 & _).
  fold s' in H1, H2, H3.
  split; [exact Hwf|]. split; [exact Hmean|].
  split; [rewrite H1; exact Hp|].
  split; [rewrite H2; exact Hg|].
  rewrite H3, Hx. reflexivity.
Defined.

(* ------------------------------------------------------------------ *)
(** ** A run on one sample, with the sample instance *)

Ltac list_eq :=
  repeat match goal with
         | |- (_ :: _) = (_ :: _) => apply (f_equal2 cons)
         | |- [] = [] => reflexivity
         end.

Ltac unfold_matrix :=
  unfold mmul, dot, vmul, getCol, cols, Sample.eye4, Sample.shift;
  cbn [map seq hd length nth vzip fold_right].

Lemma rpy_zero (z : R) : z = 0 -> Sample.rpy_to_dcm [0; 0; z] = Sample.eye4.
Proof.
  intros ->. unfold Sample.rpy_to_dcm, vget. cbn [nth].
  rewrite cos_0, sin_0. unfold_matrix. list_eq; lra.
Qed.

Lemma mmul_eye4_shift (b : R) : mmul Sample.eye4 (Sample.shift b) = Sample.shift b.
Proof. unfold_matrix. list_eq; lra. Qed.

Lemma mmul_shift_shift (b c : R) : mmul (Sample.shift b) (Sample.shift c) = Sample.shift (b + c).
Proof. unfold_matrix. list_eq; lra. Qed.

Lemma se3_inv_shift (b : R) : Sample.se3_inv (Sample.shift b) = Sample.shift (- b).
Proof.
  unfold Sample.se3_inv, Sample.transpose3, translation, mat.
  unfold_matrix. cbn [firstn app]. 
  unfold Sample.shift. list_eq; cbn [vzip fold_right]; lra.
Qed.

Lemma norm_along_x (a : R) : 0 <= a -> norm [a; 0; 0] = a.
Proof.
  intros Ha. unfold norm, dot, vmul. cbn [vzip fold_right].
  replace (a * a + (0 * 0 + (0 * 0 + 0))) with (a * a) by lra.
  apply sqrt_square. exact Ha.
Qed.

Lemma sample_cost (a : R) :
  0 <= a ->
  evaluate_cost (L := Sample.math) [Sample.sample] [a; 0; 0; 0; 0; 0] =
  2 * a + 0.1 * a.
Proof.
  intros Ha. unfold evaluate_cost.
  rewrite getExtrinsics_six by reflexivity.
  unfold subVector, pos_translation, vget.
  cbn [length Nat.ltb Nat.leb fold_left vset nth skipn firstn Nat.sub].
  cbn [rpy2dcm setCol Sample.math].
  rewrite !rpy_zero by lra.
  change (Sample.set_col 3 [- a; 0; 0] Sample.eye4) with (Sample.shift (- a)).
  change (Sample.set_col 3 [a; 0; 0] Sample.eye4) with (Sample.shift a).
  unfold accumulate. cbn [eye_kin_left eye_kin_right fundamental Sample.sample].
  cbn [SE3inv dcm2rpy Sample.math].
  rewrite !mmul_eye4_shift, se3_inv_shift, mmul_shift_shift.
  rewrite (norm_vsub_same (Sample.dcm_to_rpy Sample.eye4))
    by (intros j; reflexivity).
  unfold subVector, getCol, Sample.eye4, Sample.shift.
  cbn [map nth skipn firstn Nat.sub vsub].
  change (firstn 3 [a; 0; 0; 0; 0; 0]) with [a; 0; 0].
  rewrite (norm_along_x a Ha).
  replace (norm (vsub [0; 0; 0] [- a + - a; 0; 0])) with (2 * a).
  - cbn [INR]. lra.
  - unfold norm, dot, vmul, vsub. cbn [vzip fold_right].
    replace ((0 - (- a + - a)) * (0 - (- a + - a))
             + ((0 - 0) * (0 - 0) + ((0 - 0) * (0 - 0) + 0)))
      with ((2 * a) * (2 * a)) by lra.
    symmetry. apply sqrt_square. lra.
Qed.



Lemma toward_pos :
  scatter_pos Sample.toward (Parameters.lim Parameters.default) 0 =
  [1 / 10; 0; 0; 0; 0; 0].
Proof.
  unfold scatter_pos, mat, Sample.toward, M_PI.
  cbn [map seq nth Parameters.lim Parameters.default Nat.add].
  unfold M_PI. list_eq; lra.
Qed.

Lemma toward_vel :
  scatter_vel Sample.toward 0 = [- (1 / 10000); 0; 0; 0; 0; 0].
Proof.
  unfold scatter_vel, Sample.toward.
  cbn [map seq nth Nat.add Nat.ltb Nat.leb].
  list_eq; lra.
Qed.

Lemma toward_init :
  fst (init (L := Sample.math) Sample.toward 0
         (set_parameters (Optimizer_new [Sample.sample] 0 0 0) Sample.one_particle)
         0%nat) = Sample.after_init.
Proof.
  unfold init, bind, randomize, bind.
  cbn [parameters set_parameters set_x x Optimizer_new Z.to_nat
       Parameters.numParticles Sample.one_particle Parameters.lim].
  change (Pos.to_nat 1) with 1%nat. cbn [repeat mapR].
  unfold bind. rewrite randomize_particle_six by apply six_default.
  cbn [ret fst snd x set_x data g Particle.cost Particle.default init_loop
       parameters rand_min rand_max].
  rewrite toward_pos, toward_vel.
  unfold evaluate. cbn [Particle.pos].
  rewrite sample_cost by lra.
  replace (2 * (1 / 10) + 0.1 * (1 / 10)) with (21 / 100) by lra.
  destruct (xlt_dec (Fin (21 / 100)) PInf) as [_|H]; [|exfalso; apply H; exact I].
  reflexivity.
Qed.

Lemma toward_step (now : R) :
  g (snd (fst (step (L := Sample.math) Sample.toward now Sample.after_init 12%nat))) =
  Sample.along_x (1249 / 12500) (- (8 / 100000)) (Fin (2 * (1249 / 12500) + 0.1 * (1249 / 12500))).
Proof.
  pose proof (step_fields (L := Sample.math) Sample.toward now Sample.after_init 12%nat) as Hf.
  cbv zeta in Hf. destruct Hf as (_ & _ & _ & -> & _).
  unfold step_particles, bind.
  cbn [step_loop x p g Sample.after_init]. unfold bind.
  unfold update_particle, bind.
  cbn [rand_min rand_max Sample.after_init]. rewrite !Rand_vector_unit.
  cbv zeta.
  replace (new_vel (parameters Sample.after_init) (unit_draws Sample.toward 12)
             (unit_draws Sample.toward (6 + 12))
             (Sample.along_x (1 / 10) (- (1 / 10000)) PInf)
             (Sample.along_x (1 / 10) (- (1 / 10000)) (Fin (21 / 100)))
             (Sample.along_x (1 / 10) (- (1 / 10000)) (Fin (21 / 100))))
    with [- (8 / 100000); 0; 0; 0; 0; 0].
  2:{ unfold new_vel, vadd, vsub, vmul, vscale, unit_draws, Sample.along_x.
      cbn [Particle.pos Particle.vel map seq vzip parameters Sample.after_init
           Sample.one_particle Parameters.omega Parameters.phi_p Parameters.phi_g
           Parameters.default].
      list_eq; lra. }
  cbn [Particle.pos Particle.vel Particle.set_pos Particle.set_vel Sample.along_x].
  replace (clamp_pos (Parameters.lim (parameters Sample.after_init)) 0
             (vadd [1 / 10; 0; 0; 0; 0; 0] [- (8 / 100000); 0; 0; 0; 0; 0]))
    with [1249 / 12500; 0; 0; 0; 0; 0].
  2:{ pose proof PI_RGT_0 as Hpi.
      unfold vadd. cbn [vzip clamp_pos].
      list_eq;
        (rewrite clamp_inside;
         [lra | unfold mat, M_PI;
                cbn [nth Parameters.lim parameters Sample.after_init Sample.one_particle
                     Parameters.default]; unfold M_PI; lra]). }
  unfold evaluate.
  cbn [Particle.pos Particle.vel Particle.cost Particle.set_pos
       Particle.set_vel Particle.set_cost Sample.along_x data Sample.after_init].
  rewrite sample_cost by lra.
  destruct (xlt_dec (Fin (2 * (1249 / 12500) + 0.1 * (1249 / 12500)))
              (Fin (21 / 100))) as [_|H];
    [|exfalso; apply H; simpl; lra].
  reflexivity.
Qed.

(** With the sample instance: the reference returned by [finalize()] after
    [init()] reads a global best at [0.1] on the first axis; after one
    further [step()] the same reference reads a global best at [0.09992],
    of lower cost. *)
Example finalize_sees_later_step :
  let s := fst (init (L := Sample.math) Sample.toward 0
                  (set_parameters (Optimizer_new [Sample.sample] 0 0 0)
                     Sample.one_particle) 0%nat) in
  let s' := snd (fst (step (L := Sample.math) Sample.toward 1 s 12%nat)) in
  vget (Particle.pos (deref s (finalize s))) 0 = 1 / 10 /\
  vget (Particle.pos (deref s' (finalize s))) 0 = 1249 / 12500 /\
  xlt (Particle.cost (deref s' (finalize s)))
      (Particle.cost (deref s (finalize s))) /\
  ~ decoupled s s'.
Proof.
  rewrite toward_init. cbv zeta.
  unfold decoupled, finalize, deref. rewrite toward_step.
  split; [reflexivity|]. split; [reflexivity|].
  split; [simpl; lra|].
  intros E. apply (f_equal (fun q => vget (Particle.pos q) 0)) in E.
  unfold vget in E. simpl in E. lra.
Qed.

(* ------------------------------------------------------------------ *)
(** ** More on the cost function *)

Section CostFacts.

Context {L : CtrlMath}.

Lemma norm_nonneg (v : Vector) : 0 <= norm v.
Proof. unfold norm. apply sqrt_pos. Qed.

Lemma dot_self_nonneg (v : Vector) : 0 <= dot v v.
Proof.
  unfold dot, vmul. induction v as [|a v IH]; simpl; [lra|].
  pose proof (Rle_0_sqr a) as Ha. unfold Rsqr in Ha. lra.
Qed.

Lemma dot_self_zero (v : Vector) :
  dot v v = 0 -> forall j : nat, vget v j = 0.
Proof.
  unfold vget. induction v as [|a v IH]; intros H j.
  - destruct j; reflexivity.
  - pose proof (dot_self_nonneg v) as Hv.
    unfold dot, vmul in H, Hv, IH. simpl in H.
    pose proof (Rle_0_sqr a) as Ha. unfold Rsqr in Ha.
    assert (Ha0 : a * a = 0) by lra.
    assert (Hv0 : fold_right Rplus 0 (vzip Rmult v v) = 0) by lra.
    destruct j as [|j]; simpl.
    + destruct (Rmult_integral _ _ Ha0); assumption.
    + apply IH. exact Hv0.
Qed.

Lemma norm_zero (v : Vector) : norm v = 0 -> forall j : nat, vget v j = 0.
Proof.
  intros H. apply dot_self_zero. unfold norm in H.
  apply sqrt_eq_0; [apply dot_self_nonneg | exact H].
Qed.

Lemma misfit_nonneg (Hl Hr : Matrix) (d : CalibrationData) :
  0 <= misfit Hl Hr d.
Proof.
  unfold misfit.
  pose proof (norm_nonneg
                (vsub (translation (fundamental d))
                   (translation (predicted Hl Hr d)))).
  pose proof (norm_nonneg
                (vsub (dcm2rpy (fundamental d))
                   (dcm2rpy (predicted Hl Hr d)))).
  lra.
Qed.

Lemma Rsum_nonneg (A : Type) (f : A -> R) (l : list A) :
  (forall a, 0 <= f a) -> 0 <= Rsum (map f l).
Proof.
  intros Hf. induction l as [|a l IH]; simpl; [lra|].
  specialize (Hf a). lra.
Qed.

Lemma Rsum_zero (A : Type) (f : A -> R) (l : list A) :
  (forall a, 0 <= f a) -> Rsum (map f l) = 0 ->
  forall a, In a l -> f a = 0.
Proof.
  intros Hf. induction l as [|b l IH]; intros H a Hin; [contradiction|].
  simpl in H. pose proof (Rsum_nonneg A f l Hf) as Hl.
  pose proof (Hf b).
  destruct Hin as [->|Hin]; [lra|]. apply IH; [lra | exact Hin].
Qed.

Lemma INR_length_pos (A : Type) (l : list A) : l <> [] -> 0 < INR (length l).
Proof.
  intros H. destruct l; [congruence|]. apply lt_0_INR. simpl. lia.
Qed.

Lemma evaluate_cost_nonneg (data : list CalibrationData) (pos : Vector) :
  0 <= evaluate_cost data pos.
Proof.
  destruct data as [|d data].
  - unfold evaluate_cost. destruct (getExtrinsics pos [] []) as [[ok Hl] Hr].
    simpl. lra.
  - assert (Hne : d :: data <> []) by discriminate.
    pose proof (evaluate_regularisation_eq (d :: data) pos Hne) as H.
    destruct (getExtrinsics pos [] []) as [[ok Hl] Hr].
    rewrite H.
    pose proof (Rsum_nonneg _ (misfit Hl Hr) (d :: data) (misfit_nonneg Hl Hr))
      as Hs.
    pose proof (INR_length_pos _ (d :: data) Hne) as HN.
    pose proof (norm_nonneg (pos_translation pos)) as Hn.
    assert (0 <= / INR (length (d :: data))
                 * Rsum (map (misfit Hl Hr) (d :: data))).
    { apply Rmult_le_pos; [|exact Hs]. left. apply Rinv_0_lt_compat. exact HN. }
    lra.
Qed.

(** X1: the cost computed by [evaluate] is never negative, and for a
    non-empty store it is at least the regularisation term
    [0.1 |pos[0:3]|]. *)
Theorem evaluate_cost_bounds (data : list CalibrationData) (pos : Vector) :
  0 <= evaluate_cost data pos /\
  (data <> [] -> 0.1 * norm (pos_translation pos) <= evaluate_cost data pos).
Proof.
  assert (Hlow : data <> [] ->
                 0.1 * norm (pos_translation pos) <= evaluate_cost data pos).
  { intros Hne.
    pose proof (evaluate_regularisation_eq data pos Hne) as H.
    destruct (getExtrinsics pos [] []) as [[ok Hl] Hr].
    rewrite H.
    pose proof (Rsum_nonneg _ (misfit Hl Hr) data (misfit_nonneg Hl Hr)) as Hs.
    pose proof (INR_length_pos _ data Hne) as HN.
    assert (0 <= / INR (length data) * Rsum (map (misfit Hl Hr) data)).
    { apply Rmult_le_pos; [|exact Hs]. left. apply Rinv_0_lt_compat. exact HN. }
    lra. }
  split; [|exact Hlow].
  destruct data as [|d data].
  - unfold evaluate_cost. destruct (getExtrinsics pos [] []) as [[ok Hl] Hr].
    simpl. lra.
  - assert (Hne : d :: data <> []) by discriminate.
    specialize (Hlow Hne). pose proof (norm_nonneg (pos_translation pos)). lra.
Qed.

End CostFacts.

Section CostAlgebra.

Context {L : CtrlMath}.

Lemma pos_translation_get (pos : Vector) (j : nat) :
  (j < 3)%nat -> vget (pos_translation pos) j = vget pos j.
Proof.
  intros Hj. unfold vget, pos_translation.
  destruct pos as [|a [|b [|c pos]]];
    do 3 (destruct j as [|j]; [reflexivity|]); lia.
Qed.

(** X2: with a non-empty store a cost of exactly 0 is reached only at
    positions whose three translation components are 0 and for which every
    sample is fitted exactly. *)
Theorem zero_cost_needs_zero_translation (data : list CalibrationData)
    (pos : Vector) :
  data <> [] -> evaluate_cost data pos = 0 ->
  (forall j : nat, (j < 3)%nat -> vget pos j = 0) /\
  let '(_, Hl, Hr) := getExtrinsics pos [] [] in
  forall d : CalibrationData, In d data -> misfit Hl Hr d = 0.
Proof.
  intros Hne H0.
  pose proof (evaluate_regularisation_eq data pos Hne) as H.
  destruct (getExtrinsics pos [] []) as [[ok Hl] Hr].
  rewrite H0 in H.
  pose proof (Rsum_nonneg _ (misfit Hl Hr) data (misfit_nonneg Hl Hr)) as Hs.
  pose proof (INR_length_pos _ data Hne) as HN.
  pose proof (norm_nonneg (pos_translation pos)) as Hn.
  assert (Hm : 0 <= / INR (length data) * Rsum (map (misfit Hl Hr) data)).
  { apply Rmult_le_pos; [|exact Hs]. left. apply Rinv_0_lt_compat. exact HN. }
  assert (Hn0 : norm (pos_translation pos) = 0) by lra.
  assert (Hm0 : / INR (length data) * Rsum (map (misfit Hl Hr) data) = 0)
    by lra.
  split.
  - intros j Hj. rewrite <- pos_translation_get by exact Hj.
    apply norm_zero. exact Hn0.
  - intros d Hd. apply (Rsum_zero _ (misfit Hl Hr) data (misfit_nonneg Hl Hr));
      [|exact Hd].
    destruct (Rmult_integral _ _ Hm0) as [Hi|Hsum]; [|exact Hsum].
    exfalso. apply (Rinv_neq_0_compat (INR (length data))); [lra | exact Hi].
Qed.

Lemma Rsum_permutation (l l' : list R) : Permutation l l' -> Rsum l = Rsum l'.
Proof.
  induction 1; simpl; try lra; congruence.
Qed.

Lemma Rsum_app (l l' : list R) : Rsum (l ++ l') = Rsum l + Rsum l'.
Proof. induction l as [|a l IH]; simpl; [lra|]. rewrite IH. lra. Qed.

(** X3: the cost does not depend on the order of the samples in the
    store. *)
Theorem evaluate_cost_permutation (data data' : list CalibrationData)
    (pos : Vector) :
  Permutation data data' -> evaluate_cost data pos = evaluate_cost data' pos.
Proof.
  intros Hp. destruct data as [|d data].
  - apply Permutation_nil in Hp. subst. reflexivity.
  - assert (Hne : d :: data <> []) by discriminate.
    assert (Hne' : data' <> []).
    { intros ->. apply Permutation_sym, Permutation_nil in Hp. discriminate. }
    rewrite (evaluate_cost_mean pos _ Hne), (evaluate_cost_mean pos _ Hne').
    destruct (getExtrinsics pos [] []) as [[ok Hl] Hr].
    rewrite (Permutation_length Hp).
    f_equal. apply Rsum_permutation. apply Permutation_map. exact Hp.
Qed.

(** X4: the cost over two stores put end to end is the mean of the two
    costs weighted by the numbers of samples. *)
Theorem evaluate_cost_app (data1 data2 : list CalibrationData) (pos : Vector) :
  data1 <> [] -> data2 <> [] ->
  evaluate_cost (data1 ++ data2) pos =
  (INR (length data1) * evaluate_cost data1 pos
   + INR (length data2) * evaluate_cost data2 pos)
  / INR (length data1 + length data2).
Proof.
  intros H1 H2.
  assert (H12 : data1 ++ data2 <> []).
  { destruct data1; [congruence | discriminate]. }
  rewrite (evaluate_cost_mean pos _ H12), (evaluate_cost_mean pos _ H1),
    (evaluate_cost_mean pos _ H2).
  destruct (getExtrinsics pos [] []) as [[ok Hl] Hr].
  rewrite map_app, Rsum_app, length_app, plus_INR.
  pose proof (INR_length_pos _ data1 H1). pose proof (INR_length_pos _ data2 H2).
  field. lra.
Qed.

(** X5: [getExtrinsics] returns true exactly for vectors of at least six
    components. It then reads the first six only and overwrites both
    matrices whatever they held; otherwise it leaves both as they were. *)
Theorem getExtrinsics_cases (x : Vector) (Hl Hr : Matrix) :
  ((length x < 6)%nat -> getExtrinsics x Hl Hr = (false, Hl, Hr)) /\
  ((6 <= length x)%nat ->
   fst (fst (getExtrinsics x Hl Hr)) = true /\
   forall A B : Matrix,
     getExtrinsics x Hl Hr = getExtrinsics (firstn 6 x) A B).
Proof.
  split; intros Hlen.
  - unfold getExtrinsics.
    destruct (Nat.leb_spec 6 (length x)) as [H|H]; [lia | reflexivity].
  - destruct x as [|a [|b [|c [|d [|e [|f x]]]]]]; simpl in Hlen; try lia.
    split; [reflexivity|]. intros A B. reflexivity.
Qed.

End CostAlgebra.

(* ------------------------------------------------------------------ *)
(** ** More on clamping *)

(** X6: for ordered bounds the clamp of [step] is the identity inside the
    bounds and returns the nearer bound outside; for bounds given in the
    wrong order ([lim(j,1) < lim(j,0)]) it returns [lim(j,1)] for every
    value. *)
Theorem clamp_cases (lim : Matrix) (j : nat) (v : R) :
  let lo := mat lim j 0 in
  let hi := mat lim j 1 in
  (lo <= hi ->
   (v < lo -> clamp lim j v = lo) /\
   (lo <= v <= hi -> clamp lim j v = v) /\
   (hi < v -> clamp lim j v = hi) /\
   clamp lim j (clamp lim j v) = clamp lim j v) /\
  (hi < lo -> clamp lim j v = hi).
Proof.
  intros lo hi. unfold clamp, std_min, std_max. fold lo hi.
  split.
  - intros Hle.
    destruct (Rlt_dec v lo) as [H1|H1].
    + destruct (Rlt_dec hi lo) as [H2|H2]; [lra|].
      repeat split; intros; try lra.
      destruct (Rlt_dec lo lo); [lra|].
      destruct (Rlt_dec hi lo); lra.
    + destruct (Rlt_dec hi v) as [H2|H2].
      * repeat split; intros; try lra.
        destruct (Rlt_dec hi lo); [lra|].
        destruct (Rlt_dec hi hi); lra.
      * repeat split; intros; try lra.
        destruct (Rlt_dec v lo); [lra|].
        destruct (Rlt_dec hi v); lra.
  - intros Hlt.
    destruct (Rlt_dec v lo) as [H1|H1].
    + destruct (Rlt_dec hi lo); lra.
    + destruct (Rlt_dec hi v); lra.
Qed.

(* ------------------------------------------------------------------ *)
(** ** More on the bests *)

Section BestFacts.

Context {L : CtrlMath}.
Variable uniform : nat -> R.

Lemma xlt_irrefl (a : xreal) : ~ xlt a a.
Proof. destruct a; simpl; [lra | tauto]. Qed.

(** The three ways the body of the loop can end. *)
Lemma update_particle_outcome (s : Optimizer) (xi pi g : Particle.t) (k : nat) :
  let '(xi', pi', g') := fst (update_particle uniform s xi pi g k) in
  (pi' = pi /\ g' = g /\ ~ xlt (Particle.cost xi') (Particle.cost pi)) \/
  (pi' = xi' /\ g' = g /\ xlt (Particle.cost xi') (Particle.cost pi) /\
   ~ xlt (Particle.cost xi') (Particle.cost g)) \/
  (pi' = xi' /\ g' = xi' /\ xlt (Particle.cost xi') (Particle.cost pi) /\
   xlt (Particle.cost xi') (Particle.cost g)).
Proof.
  unfold update_particle, bind.
  destruct (Rand_vector uniform (rand_min s) (rand_max s) k) as [r1 k1].
  destruct (Rand_vector uniform (rand_min s) (rand_max s) k1) as [r2 k2].
  cbv zeta. unfold evaluate.
  destruct (xlt_dec _ (Particle.cost pi)) as [Hp|Hp].
  - destruct (xlt_dec _ (Particle.cost g)) as [Hg|Hg]; cbn [fst].
    + right; right. repeat split; assumption.
    + right; left. repeat split; assumption.
  - cbn [fst]. left. repeat split; assumption.
Qed.

Lemma step_loop_pbest_mono (s : Optimizer) (xs ps : list Particle.t)
    (g : Particle.t) (k : nat) :
  Forall2 (fun pi pi' => pi' = pi \/
                         xlt (Particle.cost pi') (Particle.cost pi))
          ps (snd (fst (fst (step_loop uniform s xs ps g k)))).
Proof.
  assert (Hrefl : forall l : list Particle.t,
             Forall2 (fun pi pi' => pi' = pi \/
                                    xlt (Particle.cost pi') (Particle.cost pi))
                     l l).
  { induction l; constructor; auto. }
  revert ps g k; induction xs as [|xi xs IH]; intros ps g k.
  - simpl. apply Hrefl.
  - destruct ps as [|pi ps]; [simpl; constructor|].
    simpl. unfold bind.
    pose proof (update_particle_outcome s xi pi g k) as Hu.
    destruct (update_particle uniform s xi pi g k) as [[[xi' pi'] g1] k1].
    specialize (IH ps g1 k1).
    destruct (step_loop uniform s xs ps g1 k1) as [[[xs' ps'] g'] k'].
    cbn [fst snd] in Hu, IH |- *.
    constructor; [|exact IH].
    destruct Hu as [(-> & _)|[(-> & _ & H & _)|(-> & _ & H & _)]]; auto.
Qed.

(** X7: a step never makes a best worse: the cost of the global best and
    the cost of every personal best after [step()] are at most what they
    were before, and a personal best that changed has a strictly lower
    cost. *)
Theorem bests_never_worsen (s : Optimizer) (now : R) (k : nat) :
  let s' := snd (fst (step uniform now s k)) in
  xle (Particle.cost (g s')) (Particle.cost (g s)) /\
  Forall2 (fun pi pi' => pi' = pi \/
                         xlt (Particle.cost pi') (Particle.cost pi))
          (p s) (p s').
Proof.
  intros s'.
  pose proof (step_fields uniform now s k) as Hf. cbv zeta in Hf.
  fold s' in Hf. destruct Hf as (_ & _ & Hp & Hg & _).
  pose proof (step_particles_fields uniform s k) as Hm. cbv zeta in Hm.
  destruct Hm as (_ & _ & _ & Hpm & Hgm & _).
  rewrite Hp, Hg, Hpm, Hgm. split.
  - pose proof (step_loop_best uniform s (x s) (p s) (g s) k) as Hb.
    destruct (fst (step_loop uniform s (x s) (p s) (g s) k))
      as [[xs' ps'] g'].
    cbn [snd]. destruct Hb as [->|[_ Hlt]];
      [apply xle_refl | apply xlt_xle; exact Hlt].
  - apply step_loop_pbest_mono.
Qed.

Lemma init_loop_attained (data_ : list CalibrationData) (ps : list Particle.t)
    (g : Particle.t) :
  let (ps', g') := init_loop data_ ps g in
  g' = g \/ In g' ps'.
Proof.
  revert g; induction ps as [|pi ps IH]; intros g; simpl; [left; reflexivity|].
  match goal with
  | |- context [init_loop data_ ps ?G] => set (g1 := G)
  end.
  specialize (IH g1). destruct (init_loop data_ ps g1) as [ps' g'].
  destruct IH as [->|Hin]; [|right; right; exact Hin].
  unfold g1. destruct (xlt_dec _ _); [right; left; reflexivity | left; reflexivity].
Qed.

Lemma init_loop_attained_new (data_ : list CalibrationData)
    (ps : list Particle.t) (g : Particle.t) :
  Particle.cost g = PInf -> ps <> [] ->
  let (ps', g') := init_loop data_ ps g in In g' ps'.
Proof.
  intros Hg Hne. destruct ps as [|pi ps]; [congruence|]. simpl.
  match goal with
  | |- context [init_loop data_ ps ?G] => set (g1 := G)
  end.
  pose proof (init_loop_attained data_ ps g1) as H.
  destruct (init_loop data_ ps g1) as [ps' g'].
  destruct H as [->|Hin]; [|right; exact Hin].
  left. unfold g1. rewrite Hg.
  destruct (xlt_dec _ PInf) as [_|H]; [reflexivity | exfalso; apply H; exact I].
Qed.

Lemma step_loop_attained (s : Optimizer) (xs ps : list Particle.t)
    (g : Particle.t) (k : nat) :
  let '(_, ps', g') := fst (step_loop uniform s xs ps g k) in
  (g' = g /\
   forall i : nat, nth_error ps i = Some g -> nth_error ps' i = Some g) \/
  In g' ps'.
Proof.
  revert ps g k; induction xs as [|xi xs IH]; intros ps g k.
  - simpl. left. split; auto.
  - destruct ps as [|pi ps]; [simpl; left; split; auto|].
    simpl. unfold bind.
    pose proof (update_particle_outcome s xi pi g k) as Hu.
    destruct (update_particle uniform s xi pi g k) as [[[xi' pi'] g1] k1].
    specialize (IH ps g1 k1).
    destruct (step_loop uniform s xs ps g1 k1) as [[[xs' ps'] g'] k'].
    cbn [fst] in Hu, IH |- *.
    destruct IH as [[-> Hkeep]|Hin]; [|right; right; exact Hin].
    destruct Hu as [(-> & -> & _)|[(-> & -> & Hlt & Hn)|(-> & -> & _)]].
    + left. split; [reflexivity|].
      intros [|i] Hi; simpl in Hi |- *; [exact Hi | apply Hkeep; exact Hi].
    + left. split; [reflexivity|].
      intros [|i] Hi; simpl in Hi |- *; [|apply Hkeep; exact Hi].
      inversion Hi; subst. contradiction.
    + right. left. reflexivity.
Qed.

Lemma reachable_kept (data_ : list CalibrationData) (pars : Parameters.t)
    (s : Optimizer) :
  reachable uniform data_ pars s -> Forall (kept data_ (g s)) (p s).
Proof.
  induction 1 as [iter_ t_ t0_ now k | s now k Hs IH].
  - pose proof (init_fields uniform now
                  (set_parameters (Optimizer_new data_ iter_ t_ t0_) pars) k)
      as H.
    cbv zeta in H. destruct H as (_ & _ & _ & _ & Hloop).
    match type of Hloop with
    | init_loop ?d ?l ?g0 = _ => pose proof (init_loop_kept d l g0) as Hk
    end.
    rewrite Hloop in Hk. destruct Hk as [_ Hk]. exact Hk.
  - destruct (reachable_data uniform _ _ _ Hs) as [Hd _].
    pose proof (step_fields uniform now s k) as H. cbv zeta in H.
    destruct H as (_ & _ & Hp & Hg & _).
    pose proof (step_particles_fields uniform s k) as Hm. cbv zeta in Hm.
    destruct Hm as (_ & _ & _ & Hp' & Hg' & _).
    rewrite Hp, Hg, Hp', Hg'.
    rewrite <- Hd in IH.
    pose proof (step_loop_kept uniform s (x s) (p s) (g s) k IH) as Hk.
    destruct (fst (step_loop uniform s (x s) (p s) (g s) k))
      as [[xs' ps'] g'].
    simpl. rewrite <- Hd. tauto.
Qed.

Lemma reachable_attained (data_ : list CalibrationData) (pars : Parameters.t)
    (s : Optimizer) :
  (1 <= Parameters.numParticles pars)%Z ->
  reachable uniform data_ pars s -> In (g s) (p s).
Proof.
  intros Hn. induction 1 as [iter_ t_ t0_ now k | s now k Hs IH].
  - set (s0 := set_parameters (Optimizer_new data_ iter_ t_ t0_) pars).
    pose proof (init_fields uniform now s0 k) as H.
    cbv zeta in H. destruct H as (_ & _ & _ & _ & Hloop).
    pose proof (reachable_well_formed uniform data_ pars _
                  (reachable_init uniform data_ pars iter_ t_ t0_ now k))
      as (_ & _ & _ & Hlen & _).
    fold s0 in Hlen.
    assert (Hx : x (fst (init uniform now s0 k)) <> []).
    { intros E.
      assert (Hl : length (p (fst (init uniform now s0 k)))
                   = Z.to_nat (Parameters.numParticles pars)).
      { rewrite Hlen. unfold init, bind.
        match goal with
        | |- context [randomize uniform ?S k] =>
            pose proof (randomize_six uniform S k) as Hr;
            destruct (randomize uniform S k) as [sr kr]
        end.
        cbn [fst x set_x] in Hr.
        destruct Hr as [_ Hl]; [apply Forall_forall; intros q Hq;
          apply repeat_spec in Hq; subst; apply six_default|].
        destruct (init_loop (data sr) (x sr) (g sr)) as [p1 g1]. simpl.
        rewrite Hl, repeat_length. reflexivity. }
      rewrite Hlen, E in Hl. simpl in Hl. lia. }
    pose proof (init_loop_attained_new (data s0)
                  (x (fst (init uniform now s0 k))) (g s0) eq_refl Hx) as Ha.
    rewrite Hloop in Ha. exact Ha.
  - pose proof (step_fields uniform now s k) as H. cbv zeta in H.
    destruct H as (_ & _ & Hp & Hg & _).
    pose proof (step_particles_fields uniform s k) as Hm. cbv zeta in Hm.
    destruct Hm as (_ & _ & _ & Hp' & Hg' & _).
    rewrite Hp, Hg, Hp', Hg'.
    pose proof (step_loop_attained s (x s) (p s) (g s) k) as Ha.
    destruct (fst (step_loop uniform s (x s) (p s) (g s) k))
      as [[xs' ps'] g'].
    cbn [fst snd]. destruct Ha as [[-> Hkeep]|Hin]; [|exact Hin].
    destruct (In_nth_error _ _ IH) as [i Hi].
    eapply nth_error_In. apply Hkeep. exact Hi.
Qed.

(** X8: in a run with at least one particle the global best is always one
    of the personal bests, so that its cost is the minimum of their costs;
    that cost is a finite number, not negative. *)
Theorem global_best_is_a_personal_best (data_ : list CalibrationData)
    (pars : Parameters.t) (s : Optimizer) :
  (1 <= Parameters.numParticles pars)%Z ->
  reachable uniform data_ pars s ->
  (exists i : nat, nth_error (p s) i = Some (g s)) /\
  (forall pi : Particle.t,
      In pi (p s) -> xle (Particle.cost (g s)) (Particle.cost pi)) /\
  exists c : R, Particle.cost (g s) = Fin c /\ 0 <= c.
Proof.
  intros Hn Hreach.
  pose proof (reachable_attained data_ pars s Hn Hreach) as Hin.
  pose proof (reachable_kept data_ pars s Hreach) as Hk.
  rewrite Forall_forall in Hk.
  split; [apply In_nth_error; exact Hin|].
  split; [intros pi Hpi; apply (Hk pi Hpi)|].
  destruct (Hk _ Hin) as [_ Hc].
  eexists. split; [exact Hc|].
  apply evaluate_cost_nonneg.
Qed.

(** X9: [step()] returns true exactly when, after its updates, the
    iteration count is below [maxIter], the cost of the global best is
    above the threshold and the elapsed time [now - t0] is below [maxT]; it
    adds one to the iteration count and records the elapsed time. *)
Theorem step_continues_iff (s : Optimizer) (now : R) (k : nat) :
  let s' := snd (fst (step uniform now s k)) in
  let pars := parameters s in
  (fst (fst (step uniform now s k)) = true <->
   (iter s + 1 < Parameters.maxIter pars)%Z /\
   xlt (Fin (Parameters.cost pars)) (Particle.cost (g s')) /\
   xlt (Fin (now - t0 s)) (Parameters.maxT pars)) /\
  iter s' = (iter s + 1)%Z /\ t s' = now - t0 s /\ t0 s' = t0 s.
Proof.
  intros s' pars. unfold s', pars. rewrite step_unfold.
  pose proof (step_particles_fields uniform s k) as Hm. cbv zeta in Hm.
  destruct (step_particles uniform s k) as [sm k1].
  pose proof (step_scatter_frame uniform sm k1) as Hs.
  destruct (step_scatter uniform sm k1) as [[sc b] k2].
  cbn [fst snd] in Hm, Hs |- *.
  destruct Hm as (_ & Hpm & _ & _ & _ & _ & _ & Him & Ht0m).
  destruct Hs as (_ & Hpc & _ & _ & _ & _ & Hic & _ & Ht0c).
  unfold step_term. cbn [fst snd iter t t0 g].
  rewrite Hpc, Hpm, Hic, Him, Ht0c, Ht0m.
  split; [|repeat split].
  rewrite !andb_true_iff, Z.ltb_lt. unfold xltb.
  destruct (xlt_dec (Fin (Parameters.cost (parameters s))) (Particle.cost (g sc)));
    destruct (xlt_dec (Fin (now - t0 s)) (Parameters.maxT (parameters s)));
    intuition congruence.
Qed.

End BestFacts.

(* ------------------------------------------------------------------ *)
(** ** More on init() and on the steps *)

Section SwarmFacts.

Context {L : CtrlMath}.
Variable uniform : nat -> R.

Hypothesis uniform_range : forall n : nat, 0 <= uniform n <= 1.

Lemma mapR_randomize_draws (lim : Matrix) (l : list Particle.t) (k : nat) :
  Forall six l ->
  snd (mapR (randomize_particle uniform lim) l k) = (length l * 12 + k)%nat.
Proof.
  intros Hall; revert k; induction Hall as [|a l Ha Hall IH]; intros k.
  - reflexivity.
  - cbn [mapR]. unfold bind, ret.
    rewrite (randomize_particle_six uniform lim a k Ha).
    specialize (IH (12 + k)%nat).
    destruct (mapR (randomize_particle uniform lim) l (12 + k)%nat)
      as [bs k'].
    cbn [snd length] in IH |- *. rewrite IH. lia.
Qed.

Lemma init_randomized (now : R) (s : Optimizer) (k : nat) :
  let n := Z.to_nat (Parameters.numParticles (parameters s)) in
  let r := mapR (randomize_particle uniform (Parameters.lim (parameters s)))
             (repeat Particle.default n) k in
  x (fst (init uniform now s k)) = fst r /\
  snd (init uniform now s k) = snd r /\
  iter (fst (init uniform now s k)) = 0%Z /\
  t (fst (init uniform now s k)) = 0 /\
  t0 (fst (init uniform now s k)) = now.
Proof.
  unfold init, bind, randomize, bind, ret.
  cbn [x set_x parameters].
  destruct (mapR _ (repeat Particle.default _) k) as [x' k'].
  cbn [x set_x data g fst snd].
  destruct (init_loop (data s) x' (g s)) as [p1 g1]. cbn [fst snd x iter t t0].
  repeat split. lra.
Qed.

Lemma repeat_six (n : nat) : Forall six (repeat Particle.default n).
Proof.
  apply Forall_forall. intros q Hq. apply repeat_spec in Hq. subst.
  apply six_default.
Qed.

(** X10: [init()] on a new optimizer creates [numParticles] particles and
    as many personal bests, draws twelve numbers per particle and resets
    the counters. Every particle lies within ordered bounds, has velocity
    components within [1e-4] (translation) and [DEG2RAD] (rotation) of 0,
    and keeps the cost [+oo] of its construction: only its copy among the
    personal bests is evaluated. *)
Theorem init_state (data_ : list CalibrationData) (pars : Parameters.t)
    (iter_ : Z) (t_ t0_ now : R) (k : nat) :
  (0 <= Parameters.numParticles pars)%Z ->
  let r := init uniform now
             (set_parameters (Optimizer_new data_ iter_ t_ t0_) pars) k in
  let s1 := fst r in
  let n := Z.to_nat (Parameters.numParticles pars) in
  length (x s1) = n /\ length (p s1) = n /\
  iter s1 = 0%Z /\ t s1 = 0 /\ t0 s1 = now /\
  snd r = (n * 12 + k)%nat /\
  forall (i : nat) (xi : Particle.t),
    nth_error (x s1) i = Some xi ->
    Particle.cost xi = PInf /\
    nth_error (p s1) i =
      Some (Particle.set_cost xi
              (Fin (evaluate_cost data_ (Particle.pos xi)))) /\
    (forall j : nat, (j < 3)%nat ->
       -1e-4 <= vget (Particle.vel xi) j <= 1e-4) /\
    (forall j : nat, (3 <= j < 6)%nat ->
       - DEG2RAD <= vget (Particle.vel xi) j <= DEG2RAD) /\
    (bounds_ordered (Parameters.lim pars) ->
     forall j : nat, (j < 6)%nat ->
       mat (Parameters.lim pars) j 0 <= vget (Particle.pos xi) j
       <= mat (Parameters.lim pars) j 1).
Proof.
  intros Hn r s1 n. subst s1 r.
  set (s0 := set_parameters (Optimizer_new data_ iter_ t_ t0_) pars).
  pose proof (init_randomized now s0 k) as Hr. cbv zeta in Hr.
  change (parameters s0) with pars in Hr. fold n in Hr.
  pose proof (init_fields uniform now s0 k) as Hf. cbv zeta in Hf.
  destruct Hf as (_ & _ & _ & _ & Hloop).
  change (data s0) with data_ in Hloop.
  set (s1 := fst (init uniform now s0 k)) in *.
  destruct Hr as (Hx & Hk & Hi & Ht & Ht0).
  destruct (mapR_randomize uniform (Parameters.lim pars)
              (repeat Particle.default n) k (repeat_six n)) as [Hlen Hnth].
  rewrite <- Hx in Hlen, Hnth. rewrite repeat_length in Hlen.
  pose proof (init_loop_copies data_ (x s1) (g s0)) as Hc.
  rewrite Hloop in Hc. cbn [fst] in Hc.
  split; [exact Hlen|]. split; [rewrite Hc, length_map; exact Hlen|].
  split; [exact Hi|]. split; [exact Ht|]. split; [exact Ht0|].
  split.
  { rewrite Hk. rewrite (mapR_randomize_draws _ _ _ (repeat_six n)).
    rewrite repeat_length. reflexivity. }
  intros i xi Hxi.
  assert (Hlt : (i < n)%nat).
  { rewrite <- Hlen. apply nth_error_Some. congruence. }
  assert (Hd : nth_error (repeat Particle.default n) i = Some Particle.default).
  { rewrite nth_error_repeat by exact Hlt. reflexivity. }
  assert (Hp : nth_error (p s1) i =
               Some (Particle.set_cost xi
                       (Fin (evaluate_cost data_ (Particle.pos xi))))).
  { rewrite Hc, nth_error_map, Hxi. reflexivity. }
  split; [|split; [exact Hp|]]; clear Hp.
  { rewrite (Hnth i Particle.default Hd) in Hxi. inversion Hxi. reflexivity. }
  rewrite (Hnth i Particle.default Hd) in Hxi. inversion Hxi as [Exi].
  cbn [Particle.vel Particle.pos].
  split; [intros j Hj; apply (scatter_vel_range uniform uniform_range); exact Hj|].
  split; [intros j Hj; apply (scatter_vel_range uniform uniform_range); exact Hj|].
  intros Hord j Hj.
  apply (scatter_pos_within uniform uniform_range _ _ Hord). exact Hj.
Qed.

End SwarmFacts.

Section LoopFacts.

Context {L : CtrlMath}.
Variable uniform : nat -> R.

Hypothesis uniform_range : forall n : nat, 0 <= uniform n <= 1.

Lemma step_loop_each (Q : Particle.t -> Prop) (s : Optimizer)
    (xs ps : list Particle.t) (g : Particle.t) (k : nat) :
  (forall (xi pi g : Particle.t) (k : nat),
      six xi -> six pi -> six g ->
      Q (fst (fst (fst (update_particle uniform s xi pi g k))))) ->
  rand_min s = vconst 6 0.0 -> rand_max s = vconst 6 1.0 ->
  Forall six xs -> Forall six ps -> six g -> length ps = length xs ->
  Forall Q (fst (fst (fst (step_loop uniform s xs ps g k)))).
Proof.
  intros HQ Hmin Hmax Hxs; revert ps g k.
  induction Hxs as [|xi xs Hxi Hxs IH]; intros ps g k Hps Hg Hlen.
  - destruct ps; [|discriminate Hlen]. constructor.
  - destruct ps as [|pi ps]; [discriminate Hlen|].
    inversion Hps as [|? ? Hpi Hps']; subst.
    simpl. unfold bind.
    pose proof (update_particle_shape uniform s xi pi g k Hmin Hmax Hxi Hpi Hg)
      as Hu.
    pose proof (HQ xi pi g k Hxi Hpi Hg) as Hq.
    destruct (update_particle uniform s xi pi g k) as [[[xi' pi'] g1] k1].
    cbn [fst] in Hu, Hq. destruct Hu as (_ & _ & Hg1 & _).
    assert (Hlen' : length ps = length xs) by (simpl in Hlen; lia).
    specialize (IH ps g1 k1 Hps' Hg1 Hlen').
    destruct (step_loop uniform s xs ps g1 k1) as [[[xs' ps'] g'] k'].
    cbn [fst] in IH |- *. constructor; assumption.
Qed.

Lemma step_loop_draws (s : Optimizer) (xs ps : list Particle.t)
    (g : Particle.t) (k : nat) :
  rand_min s = vconst 6 0.0 -> rand_max s = vconst 6 1.0 ->
  length ps = length xs ->
  snd (step_loop uniform s xs ps g k) = (length xs * 12 + k)%nat.
Proof.
  intros Hmin Hmax. revert ps g k; induction xs as [|xi xs IH];
    intros ps g k Hlen.
  - destruct ps; [reflexivity | discriminate Hlen].
  - destruct ps as [|pi ps]; [discriminate Hlen|].
    simpl. unfold bind.
    pose proof (update_particle_moved uniform s xi pi g k Hmin Hmax) as Hm.
    cbv zeta in Hm. destruct Hm as (_ & _ & Hk).
    destruct (update_particle uniform s xi pi g k) as [[[xi' pi'] g1] k1].
    cbn [snd] in Hk. subst k1.
    assert (Hlen' : length ps = length xs) by (simpl in Hlen; lia).
    specialize (IH ps g1 (12 + k)%nat Hlen').
    destruct (step_loop uniform s xs ps g1 (12 + k)%nat)
      as [[[xs' ps'] g'] k'].
    unfold ret. cbn [snd] in IH |- *. rewrite IH. cbn [length]. lia.
Qed.

Lemma clamp_inverted (lim : Matrix) (j : nat) (v : R) :
  mat lim j 1 < mat lim j 0 -> clamp lim j v = mat lim j 1.
Proof.
  intros Hlt. unfold clamp, std_min, std_max.
  destruct (Rlt_dec v (mat lim j 0)) as [H1|H1]; cbv iota.
  - destruct (Rlt_dec (mat lim j 1) (mat lim j 0)); lra.
  - destruct (Rlt_dec (mat lim j 1) v); lra.
Qed.

(** The condition under which [step] calls [randomize], on the state left
    by the particle loop. *)
Lemma step_scatter_cases (sm : Optimizer) (k1 : nat) :
  ((Z.rem (iter sm) 100 = 0%Z /\ mean_distance sm < 0.005) /\
   step_scatter uniform sm k1 =
     ((fst (randomize uniform sm k1), true), snd (randomize uniform sm k1)))
  \/
  (~ (Z.rem (iter sm) 100 = 0%Z /\ mean_distance sm < 0.005) /\
   step_scatter uniform sm k1 = ((sm, false), k1)).
Proof.
  unfold step_scatter.
  destruct (Z.eqb_spec (Z.rem (iter sm) 100) 0) as [Hr|Hr];
    [|right; split; [tauto | reflexivity]].
  destruct (Rlt_dec (mean_distance sm) 0.005) as [Hm|Hm];
    [|right; split; [tauto | reflexivity]].
  left. split; [tauto|]. unfold bind, ret.
  destruct (randomize uniform sm k1) as [s' k']. reflexivity.
Qed.

(** X11: [step()] draws twelve numbers per particle in its loop and twelve
    more per particle when it scatters the swarm; when the iteration count
    is not a multiple of 100, or the mean distance to the global best is
    not below 0.005, the particles are left as the loop made them. *)
Theorem step_draws (s : Optimizer) (now : R) (k : nat) :
  well_formed s ->
  let sm := fst (step_particles uniform s k) in
  let s' := snd (fst (step uniform now s k)) in
  let n := length (x s) in
  let stalled := Z.rem (iter s + 1) 100 = 0%Z /\ mean_distance sm < 0.005 in
  length (x s') = n /\
  (~ stalled -> x s' = x sm /\ snd (step uniform now s k) = (n * 12 + k)%nat) /\
  (stalled -> snd (step uniform now s k) = (n * 24 + k)%nat).
Proof.
  intros (Hx & Hp & Hg & Hlen & Hmin & Hmax) sm s' n stalled.
  subst sm s' n stalled. rewrite step_unfold.
  pose proof (step_particles_fields uniform s k) as Hm. cbv zeta in Hm.
  pose proof (step_loop_shape uniform s (x s) (p s) (g s) k
                Hmin Hmax Hx Hp Hg Hlen) as Hsh.
  pose proof (step_loop_draws s (x s) (p s) (g s) k Hmin Hmax Hlen) as Hd.
  assert (Hk1 : snd (step_particles uniform s k) = (length (x s) * 12 + k)%nat).
  { unfold step_particles, bind.
    destruct (step_loop uniform s (x s) (p s) (g s) k) as [[[a b] c] k'].
    exact Hd. }
  destruct (step_particles uniform s k) as [sm k1].
  destruct (fst (step_loop uniform s (x s) (p s) (g s) k)) as [[xs' ps'] g'].
  cbn [fst snd] in Hm, Hk1 |- *. subst k1.
  destruct Hm as (_ & Hparm & Hxm & _ & _ & _ & _ & Him & _).
  destruct Hsh as (H1 & _ & _ & H4 & _). rewrite <- Hxm in H1, H4.
  rewrite <- Him.
  destruct (step_scatter_cases sm (length (x s) * 12 + k)) as [[Hc E]|[Hc E]];
    rewrite E; cbn [fst snd step_term x].
  - pose proof (randomize_six uniform sm (length (x s) * 12 + k) H1)
      as [_ Hl].
    split; [rewrite Hl; exact H4|].
    split; [intros Hn; contradiction|].
    intros _. unfold randomize, bind, ret.
    pose proof (mapR_randomize_draws uniform (Parameters.lim (parameters sm))
                  (x sm) (length (x s) * 12 + k) H1) as Hdr.
    destruct (mapR _ (x sm) _) as [x' k'].
    cbn [snd] in Hdr |- *. rewrite Hdr, H4. lia.
  - split; [exact H4|].
    split; [intros _; split; reflexivity | intros Hn; contradiction].
Qed.

(** X12: for a bound given in the wrong order ([lim(j,1) < lim(j,0)]) every
    particle has, after [step()], its component [j] between [lim(j,1)] and
    [lim(j,0)]; it is exactly [lim(j,1)] unless the step scattered the
    swarm. *)
Theorem inverted_bound_collapses (data_ : list CalibrationData)
    (pars : Parameters.t) (s : Optimizer) (now : R) (k j : nat) :
  reachable uniform data_ pars s ->
  (j < 6)%nat ->
  mat (Parameters.lim pars) j 1 < mat (Parameters.lim pars) j 0 ->
  let sm := fst (step_particles uniform s k) in
  let s' := snd (fst (step uniform now s k)) in
  forall xi : Particle.t, In xi (x s') ->
    mat (Parameters.lim pars) j 1 <= vget (Particle.pos xi) j
    <= mat (Parameters.lim pars) j 0 /\
    (~ (Z.rem (iter s + 1) 100 = 0%Z /\ mean_distance sm < 0.005) ->
     vget (Particle.pos xi) j = mat (Parameters.lim pars) j 1).
Proof.
  intros Hreach Hj Hinv sm s'. subst sm s'.
  destruct (reachable_data uniform _ _ _ Hreach) as [_ Hpars].
  destruct (reachable_well_formed uniform _ _ _ Hreach)
    as (Hx & Hp & Hg & Hlen & Hmin & Hmax).
  assert (Hloop : Forall (fun xi => vget (Particle.pos xi) j
                                    = mat (Parameters.lim pars) j 1)
                    (fst (fst (fst (step_loop uniform s (x s) (p s) (g s) k))))).
  { apply step_loop_each; try assumption.
    intros xi pi g0 k0 Hxi Hpi Hg0.
    pose proof (update_particle_moved uniform s xi pi g0 k0 Hmin Hmax) as Hm.
    cbv zeta in Hm. destruct Hm as (_ & Hpos & _).
    rewrite Hpos. unfold vget.
    rewrite clamp_pos_nth.
    - rewrite Hpars. apply clamp_inverted. exact Hinv.
    - unfold vadd. rewrite vzip_length, new_vel_length by (auto; reflexivity).
      destruct Hxi as [-> _]. exact Hj. }
  rewrite step_unfold.
  pose proof (step_particles_fields uniform s k) as Hm. cbv zeta in Hm.
  pose proof (step_loop_shape uniform s (x s) (p s) (g s) k
                Hmin Hmax Hx Hp Hg Hlen) as Hsh.
  destruct (step_particles uniform s k) as [sm k1].
  destruct (fst (step_loop uniform s (x s) (p s) (g s) k)) as [[xs' ps'] g'].
  cbn [fst snd] in Hm, Hloop |- *.
  destruct Hm as (_ & Hparm & Hxm & _ & _ & _ & _ & Him & _).
  destruct Hsh as (H1 & _). rewrite <- Hxm in H1, Hloop. rewrite <- Him.
  destruct (step_scatter_cases sm k1) as [[Hc E]|[Hc E]];
    rewrite E; cbn [fst snd step_term x]; intros xi Hin.
  - split; [|intros Hn; contradiction].
    destruct (mapR_randomize uniform (Parameters.lim (parameters sm))
                (x sm) k1 H1) as [Hl Hnth].
    unfold randomize, bind, ret in Hin.
    destruct (mapR _ (x sm) k1) as [x' k'].
    cbn [fst x set_x] in *.
    destruct (In_nth_error _ _ Hin) as [i Hi].
    assert (Hlt : (i < length (x sm))%nat).
    { rewrite <- Hl. apply nth_error_Some. congruence. }
    destruct (nth_error (x sm) i) as [q0|] eqn:Eq;
      [|apply nth_error_None in Eq; lia].
    rewrite (Hnth i q0 Eq) in Hi. inversion Hi.
    cbn [Particle.pos]. rewrite Hparm, Hpars.
    unfold vget, scatter_pos.
    pose proof (uniform_range (j + (i * 12 + k1))) as Hu.
    revert Hu Hinv. clear - Hj.
    do 6 (destruct j as [|j]; [cbn [map seq nth Nat.add]; intros; nra|]).
    lia.
  - rewrite Forall_forall in Hloop. specialize (Hloop xi Hin).
    split; [lra | intros _; exact Hloop].
Qed.

(** X13: with [numParticles = 0] the swarm stays empty and the global best
    stays the particle of the constructor, of cost [+oo]; [step()] then
    returns true whenever the iteration count is below [maxIter] and the
    elapsed time below [maxT], whatever the cost threshold. *)
Theorem no_particles (data_ : list CalibrationData) (pars : Parameters.t)
    (s : Optimizer) :
  Parameters.numParticles pars = 0%Z ->
  reachable uniform data_ pars s ->
  x s = [] /\ p s = [] /\ g s = Particle.default /\
  forall (now : R) (k : nat),
    fst (fst (step uniform now s k)) =
    (iter s + 1 <? Parameters.maxIter pars)%Z
    && xltb (Fin (now - t0 s)) (Parameters.maxT pars).
Proof.
  intros Hn Hreach.
  destruct (reachable_data uniform _ _ _ Hreach) as [_ Hpars].
  assert (Hinv : x s = [] /\ p s = [] /\ g s = Particle.default).
  { clear Hpars. induction Hreach as [iter_ t_ t0_ now k | s now k Hs IH].
    - unfold init, bind, randomize, bind, ret.
      cbn [parameters set_parameters]. rewrite Hn. cbn [Z.to_nat repeat].
      cbn [x set_x mapR ret data g fst init_loop p Optimizer_new].
      repeat split.
    - destruct IH as (Ex & Ep & Eg).
      rewrite step_unfold. unfold step_particles, bind.
      rewrite Ex, Ep. cbn [step_loop ret].
      destruct (step_scatter_cases
                  {| data := data s; parameters := parameters s; x := [];
                     p := []; g := g s; rand_min := rand_min s;
                     rand_max := rand_max s; iter := iter s + 1; t := t s;
                     t0 := t0 s |} k) as [[_ E]|[_ E]];
        rewrite E; cbn [fst snd step_term x p g];
        unfold randomize, bind, ret; cbn [x mapR ret fst set_x p g];
        repeat split; assumption. }
  destruct Hinv as (Ex & Ep & Eg).
  split; [exact Ex|]. split; [exact Ep|]. split; [exact Eg|].
  intros now k.
  pose proof (step_fields uniform now s k) as Hf. cbv zeta in Hf.
  destruct Hf as (_ & Hp' & _ & Hg' & _).
  pose proof (step_particles_fields uniform s k) as Hm. cbv zeta in Hm.
  destruct Hm as (_ & _ & _ & _ & Hgm & _ & _ & Him & Ht0m).
  rewrite Ex, Ep in Hgm. cbn [step_loop ret fst snd] in Hgm.
  revert Hp' Hg'. rewrite step_unfold.
  destruct (step_particles uniform s k) as [sm k1].
  pose proof (step_scatter_frame uniform sm k1) as Hs.
  destruct (step_scatter uniform sm k1) as [[sc b] k2].
  cbn [fst snd] in Hgm, Him, Ht0m, Hs |- *.
  destruct Hs as (_ & _ & _ & _ & _ & _ & Hic & _ & Ht0c).
  unfold step_term. cbn [fst snd parameters g]. intros Hp' Hg'.
  rewrite Hp', Hg', Hgm, Eg, Hic, Him, Ht0c, Ht0m, Hpars.
  cbn [Particle.cost Particle.default].
  replace (xltb (Fin (Parameters.cost pars)) PInf) with true.
  - rewrite andb_true_r. reflexivity.
  - unfold xltb. destruct (xlt_dec _ PInf) as [_|H];
      [reflexivity | exfalso; apply H; exact I].
Qed.

End LoopFacts.

(* ------------------------------------------------------------------ *)
(** ** The driver runCalibration *)

Section Driver.

Context {L : CtrlMath}.
Variables uniform clock : nat -> R.

Lemma step_flag (s : Optimizer) (now : R) (k : nat) :
  let s' := snd (fst (step uniform now s k)) in
  (fst (fst (step uniform now s k)) = true ->
   (iter s' < Parameters.maxIter (parameters s))%Z) /\
  (fst (fst (step uniform now s k)) = false ->
   (Parameters.maxIter (parameters s) <= iter s')%Z \/
   ~ xlt (Fin (Parameters.cost (parameters s))) (Particle.cost (g s')) \/
   ~ xlt (Fin (now - t0 s)) (Parameters.maxT (parameters s))).
Proof.
  intros s'. subst s'. rewrite step_unfold.
  pose proof (step_particles_fields uniform s k) as Hm. cbv zeta in Hm.
  destruct (step_particles uniform s k) as [sm k1].
  pose proof (step_scatter_frame uniform sm k1) as Hs.
  destruct (step_scatter uniform sm k1) as [[sc b] k2].
  cbn [fst snd] in Hm, Hs |- *.
  destruct Hm as (_ & Hpm & _ & _ & _ & _ & _ & Him & Ht0m).
  destruct Hs as (_ & Hpc & _ & _ & _ & _ & Hic & _ & Ht0c).
  unfold step_term. cbn [fst snd iter g].
  rewrite Hpc, Hpm, Ht0c, Ht0m. unfold xltb.
  destruct (Z.ltb_spec (iter sc) (Parameters.maxIter (parameters s)));
    destruct (xlt_dec (Fin (Parameters.cost (parameters s)))
                (Particle.cost (g sc)));
    destruct (xlt_dec (Fin (now - t0 s)) (Parameters.maxT (parameters s)));
    cbn [andb]; split; intros E; try discriminate E; auto.
Qed.

Lemma run_loop_more_fuel (fuel fuel' : nat) (s : Optimizer) (cnt : Z)
    (calls yields k c : nat) (r : Optimizer * nat * nat) :
  (fuel <= fuel')%nat ->
  run_loop uniform clock fuel s cnt calls yields k c = Some r ->
  run_loop uniform clock fuel' s cnt calls yields k c = Some r.
Proof.
  revert fuel' s cnt calls yields k c.
  induction fuel as [|fuel IH]; intros fuel' s cnt calls yields k c Hle H;
    [discriminate H|].
  destruct fuel' as [|fuel']; [lia|].
  cbn [run_loop] in H |- *.
  destruct (step uniform (clock c) s k) as [[term s1] k1].
  destruct term; [|exact H].
  destruct (10 <=? cnt + 1)%Z; apply IH; try lia; exact H.
Qed.

Lemma run_loop_ends (fuel : nat) (s : Optimizer) (cnt : Z)
    (calls yields k c : nat) :
  (1 <= fuel)%nat ->
  (Parameters.maxIter (parameters s) <= iter s + Z.of_nat fuel)%Z ->
  exists (s' : Optimizer) (calls' yields' : nat),
    run_loop uniform clock fuel s cnt calls yields k c
    = Some (s', calls', yields') /\
    (calls < calls' <= calls + fuel)%nat.
Proof.
  revert s cnt calls yields k c.
  induction fuel as [|fuel IH]; intros s cnt calls yields k c H1 Hcap; [lia|].
  cbn [run_loop].
  pose proof (step_flag s (clock c) k) as Hfl. cbv zeta in Hfl.
  pose proof (step_fields uniform (clock c) s k) as Hf. cbv zeta in Hf.
  destruct (step uniform (clock c) s k) as [[term s1] k1].
  cbn [fst snd] in Hfl, Hf.
  destruct Hf as (_ & Hp & _ & _ & _ & _ & Hi).
  destruct term.
  - destruct Hfl as [Hlt _]. specialize (Hlt eq_refl).
    assert (Hf1 : (1 <= fuel)%nat) by lia.
    assert (Hcap1 : (Parameters.maxIter (parameters s1)
                     <= iter s1 + Z.of_nat fuel)%Z) by (rewrite Hp; lia).
    destruct (10 <=? cnt + 1)%Z.
    + destruct (IH s1 0%Z (S calls) (S yields) k1 (S c) Hf1 Hcap1)
        as (s' & calls' & yields' & E & Hc).
      exists s', calls', yields'. split; [exact E | lia].
    + destruct (IH s1 (cnt + 1)%Z (S calls) yields k1 (S c) Hf1 Hcap1)
        as (s' & calls' & yields' & E & Hc).
      exists s', calls', yields'. split; [exact E | lia].
  - exists s1, (S calls), yields. split; [reflexivity | lia].
Qed.

Lemma run_loop_result (data_ : list CalibrationData) (pars : Parameters.t)
    (fuel : nat) (s : Optimizer) (cnt : Z) (calls yields k c : nat)
    (s' : Optimizer) (calls' yields' : nat) :
  reachable uniform data_ pars s ->
  run_loop uniform clock fuel s cnt calls yields k c
  = Some (s', calls', yields') ->
  reachable uniform data_ pars s' /\
  (calls < calls')%nat /\
  iter s' = (iter s + Z.of_nat (calls' - calls))%Z /\
  (iter s' <= Z.max (iter s + 1) (Parameters.maxIter pars))%Z /\
  ((Parameters.maxIter pars <= iter s')%Z \/
   ~ xlt (Fin (Parameters.cost pars)) (Particle.cost (g s')) \/
   exists now : R, ~ xlt (Fin (now - t0 s')) (Parameters.maxT pars)) /\
  ((0 <= cnt < 10)%Z ->
   Z.of_nat yields' =
   (Z.of_nat yields + (cnt + Z.of_nat (calls' - calls) - 1) / 10)%Z).
Proof.
  revert s cnt calls yields k c.
  induction fuel as [|fuel IH]; intros s cnt calls yields k c Hreach H;
    [discriminate H|].
  cbn [run_loop] in H.
  destruct (reachable_data uniform _ _ _ Hreach) as [_ Hpars].
  pose proof (step_flag s (clock c) k) as Hfl. cbv zeta in Hfl.
  pose proof (step_fields uniform (clock c) s k) as Hf. cbv zeta in Hf.
  pose proof (reachable_step uniform data_ pars s (clock c) k Hreach) as Hr1.
  assert (Ht0 : t0 (snd (fst (step uniform (clock c) s k))) = t0 s).
  { rewrite step_unfold.
    pose proof (step_particles_fields uniform s k) as Hm. cbv zeta in Hm.
    destruct (step_particles uniform s k) as [sm k1].
    pose proof (step_scatter_frame uniform sm k1) as Hs.
    destruct (step_scatter uniform sm k1) as [[sc b] k2].
    cbn [fst snd step_term t0] in *.
    destruct Hm as (_ & _ & _ & _ & _ & _ & _ & _ & Ht0m).
    destruct Hs as (_ & _ & _ & _ & _ & _ & _ & _ & Ht0c). congruence. }
  destruct (step uniform (clock c) s k) as [[term s1] k1].
  cbn [fst snd] in Hfl, Hf, Hr1, Ht0.
  destruct Hf as (_ & Hp & _ & _ & _ & _ & Hi).
  rewrite Hpars in Hfl.
  destruct term.
  - destruct Hfl as [Hlt _]. specialize (Hlt eq_refl).
    destruct (Z.leb_spec 10 (cnt + 1)) as [Hc|Hc].
    + destruct (IH s1 0%Z (S calls) (S yields) k1 (S c) Hr1 H)
        as (R1 & R2 & R3 & R4 & R5 & R6).
      split; [exact R1|]. split; [lia|]. split; [lia|]. split; [lia|].
      split; [exact R5|]. intros Hcnt.
      assert (H0 : (0 <= 0 < 10)%Z) by lia. specialize (R6 H0).
      assert (cnt = 9)%Z by lia. subst cnt.
      replace (9 + Z.of_nat (calls' - calls) - 1)%Z
        with (1 * 10 + (0 + Z.of_nat (calls' - S calls) - 1))%Z by lia.
      rewrite Z.div_add_l by lia. lia.
    + destruct (IH s1 (cnt + 1)%Z (S calls) yields k1 (S c) Hr1 H)
        as (R1 & R2 & R3 & R4 & R5 & R6).
      split; [exact R1|]. split; [lia|]. split; [lia|]. split; [lia|].
      split; [exact R5|]. intros Hcnt.
      assert (H0 : (0 <= cnt + 1 < 10)%Z) by lia. specialize (R6 H0).
      replace (cnt + Z.of_nat (calls' - calls) - 1)%Z
        with (cnt + 1 + Z.of_nat (calls' - S calls) - 1)%Z by lia.
      exact R6.
  - inversion H; subst s' calls' yields'. clear H.
    destruct Hfl as [_ Hfalse]. specialize (Hfalse eq_refl).
    split; [exact Hr1|]. split; [lia|].
    split; [rewrite Hi; lia|]. split; [lia|].
    split.
    { destruct Hfalse as [H|[H|H]]; [left; exact H | right; left; exact H|].
      right; right. exists (clock c). rewrite Ht0. exact H. }
    intros Hcnt.
    replace (cnt + Z.of_nat (S calls - calls) - 1)%Z with cnt by lia.
    rewrite Z.div_small by lia. lia.
Qed.

(** X14: the loop of [runCalibration] ends: from an optimizer in a run it
    makes at least one and at most [max(1, maxIter - iter)] calls of
    [step()], and it ends in a state of the run with the iteration count
    advanced by the number of calls. When [maxIter] is an [int] and the
    count is below [INT_MAX] on entry, the count stays at most [INT_MAX]:
    [iter++] does not overflow in the loop. *)
Theorem run_loop_terminates (data_ : list CalibrationData)
    (pars : Parameters.t) (fuel : nat) (s : Optimizer) (cnt : Z) (k c : nat) :
  (0 <= Parameters.numParticles pars)%Z ->
  reachable uniform data_ pars s ->
  (Z.max 1 (Parameters.maxIter pars - iter s) <= Z.of_nat fuel)%Z ->
  exists (s' : Optimizer) (calls yields : nat),
    run_loop uniform clock fuel s cnt 0 0 k c = Some (s', calls, yields) /\
    reachable uniform data_ pars s' /\
    (1 <= Z.of_nat calls <= Z.max 1 (Parameters.maxIter pars - iter s))%Z /\
    iter s' = (iter s + Z.of_nat calls)%Z /\
    (is_int (Parameters.maxIter pars) -> (iter s < INT_MAX)%Z ->
     (iter s' <= INT_MAX)%Z).
Proof.
  intros _ Hreach Hfuel.
  destruct (reachable_data uniform _ _ _ Hreach) as [_ Hpars].
  set (f0 := Z.to_nat (Z.max 1 (Parameters.maxIter pars - iter s))).
  assert (H1 : (1 <= f0)%nat) by (unfold f0; lia).
  assert (Hcap : (Parameters.maxIter (parameters s)
                  <= iter s + Z.of_nat f0)%Z) by (rewrite Hpars; unfold f0; lia).
  destruct (run_loop_ends f0 s cnt 0 0 k c H1 Hcap)
    as (s' & calls & yields & E & Hc).
  destruct (run_loop_result data_ pars f0 s cnt 0 0 k c s' calls yields
              Hreach E) as (R1 & R2 & R3 & _).
  exists s', calls, yields.
  split; [apply (run_loop_more_fuel f0); [unfold f0; lia | exact E]|].
  split; [exact R1|]. split; [unfold f0 in Hc; lia|].
  assert (Hit : iter s' = (iter s + Z.of_nat calls)%Z)
    by (rewrite R3; f_equal; lia).
  split; [exact Hit|].
  intros [_ Hmax] Hlt. rewrite Hit. unfold f0 in Hc. lia.
Qed.

(** X15: [Time::yield()] is called once for every ten calls of [step()]
    that returned true: when the loop ends after [calls] calls, it has
    yielded [(calls - 1) / 10] times. *)
Theorem run_loop_yields (data_ : list CalibrationData) (pars : Parameters.t)
    (fuel : nat) (s s' : Optimizer) (k c calls yields : nat) :
  reachable uniform data_ pars s ->
  run_loop uniform clock fuel s 0 0 0 k c = Some (s', calls, yields) ->
  (1 <= calls)%nat /\ Z.of_nat yields = ((Z.of_nat calls - 1) / 10)%Z.
Proof.
  intros Hreach E.
  destruct (run_loop_result data_ pars fuel s 0 0 0 k c s' calls yields
              Hreach E) as (_ & R2 & _ & _ & _ & R6).
  split; [lia|].
  assert (H0 : (0 <= 0 < 10)%Z) by lia. specialize (R6 H0).
  replace (0 + Z.of_nat (calls - 0) - 1)%Z with (Z.of_nat calls - 1)%Z in R6
    by lia.
  rewrite R6. reflexivity.
Qed.

End Driver.

Section Calibration.

Context {L : CtrlMath}.
Variables uniform clock : nat -> R.

Lemma step_empty_false (s : Optimizer) (now : R) (k : nat) :
  data s = [] -> Particle.cost (g s) = Fin 0 ->
  Parameters.cost (parameters s) = 0 ->
  fst (fst (step uniform now s k)) = false.
Proof.
  intros Hd Hg Hc.
  pose proof (step_fields uniform now s k) as Hs. cbv zeta in Hs.
  destruct Hs as (_ & Hpars' & _ & Hg' & _).
  pose proof (step_particles_fields uniform s k) as Hm. cbv zeta in Hm.
  destruct Hm as (_ & _ & _ & _ & Hgm & _).
  pose proof (step_loop_empty uniform s (x s) (p s) (g s) k Hd Hg) as Hz.
  rewrite <- Hgm, <- Hg' in Hz.
  revert Hz Hpars'. rewrite step_unfold.
  destruct (step_particles uniform s k) as [sm k1].
  destruct (step_scatter uniform sm k1) as [[sc b] k2].
  cbn [fst snd step_term g parameters]. intros Hz Hpars'.
  rewrite Hz, Hpars', Hc, xltb_irrefl, andb_false_r. reflexivity.
Qed.

(** X16: when [runCalibration] returns, the cost it returns is that of the
    global best of a run on the store with the default parameters: a
    number that is not negative and at most the cost of every personal
    best. It is exactly 0 unless the loop made 2147483647 calls of
    [step()]. The two matrices are those [getExtrinsics] computes from the
    position of the global best, whatever they held before. *)
Theorem runCalibration_result (fuel : nat) (e : EyesCalibration.t)
    (seed c : nat) (A B l r : Matrix) (cost : xreal) :
  runCalibration uniform clock fuel e seed c A B = Some (cost, l, r) ->
  exists (s' : Optimizer) (calls : nat),
    reachable uniform (EyesCalibration.data e) Parameters.default s' /\
    iter s' = Z.of_nat calls /\
    cost = Particle.cost (g s') /\
    getExtrinsics (Particle.pos (g s')) A B = (true, l, r) /\
    (forall pi : Particle.t,
        In pi (p s') -> xle cost (Particle.cost pi)) /\
    exists c' : R,
      cost = Fin c' /\ 0 <= c' /\ (c' = 0 \/ Z.of_nat calls = INT_MAX).
Proof.
  unfold runCalibration. intros H.
  set (d := EyesCalibration.data e) in *.
  pose proof (reachable_init uniform d Parameters.default 0 0 0 (clock c) seed)
    as Hr1.
  change (set_parameters (Optimizer_new d 0 0 0) Parameters.default)
    with (Optimizer_new d 0 0 0) in Hr1.
  pose proof (init_randomized uniform (clock c) (Optimizer_new d 0 0 0) seed)
    as Hi.
  cbv zeta in Hi. destruct Hi as (_ & _ & Hi0 & _).
  destruct (init uniform (clock c) (Optimizer_new d 0 0 0) seed) as [s1 k1].
  cbn [fst] in Hr1, Hi0.
  destruct (run_loop uniform clock fuel s1 0 0 0 k1 (S (S c)))
    as [[[s' calls] yields]|] eqn:E; [|discriminate H].
  destruct (run_loop_result uniform clock d Parameters.default fuel s1 0 0 0
              k1 (S (S c)) s' calls yields Hr1 E)
    as (R1 & R2 & R3 & R4 & R5 & _).
  assert (Hn : (1 <= Parameters.numParticles Parameters.default)%Z)
    by (simpl; lia).
  pose proof (reachable_attained uniform d _ s' Hn R1) as Hin.
  pose proof (reachable_kept uniform d _ s' R1) as Hk.
  rewrite Forall_forall in Hk.
  destruct (reachable_well_formed uniform _ _ _ R1) as (_ & _ & [Hg6 _] & _).
  unfold finalize, deref in H.
  rewrite (getExtrinsics_six _ A B Hg6) in H.
  inversion H as [[Hcost Hl Hrr]]. clear H.
  exists s', calls.
  split; [exact R1|]. split; [rewrite R3, Hi0; lia|]. split; [reflexivity|].
  split; [apply getExtrinsics_six; exact Hg6|].
  split; [intros pi Hpi; apply (Hk pi Hpi)|].
  destruct (Hk _ Hin) as [_ Hc].
  exists (evaluate_cost d (Particle.pos (g s'))).
  split; [exact Hc|].
  pose proof (evaluate_cost_nonneg d (Particle.pos (g s'))) as Hnn.
  split; [exact Hnn|].
  destruct R5 as [Hcap|[Hcst|[now Ht]]].
  - right. rewrite Hi0 in R3, R4.
    change (Parameters.maxIter Parameters.default) with INT_MAX in Hcap, R4.
    unfold INT_MAX in *. lia.
  - left. rewrite Hc in Hcst. simpl in Hcst. lra.
  - exfalso. apply Ht. exact I.
Qed.

Lemma empty_store_run (fuel : nat) (e : EyesCalibration.t)
    (seed c : nat) (A B : Matrix) :
  EyesCalibration.data e = [] -> (1 <= fuel)%nat ->
  let s1 := fst (init uniform (clock c) (Optimizer_new [] 0 0 0) seed) in
  let k1 := snd (init uniform (clock c) (Optimizer_new [] 0 0 0) seed) in
  (exists s' : Optimizer,
      run_loop uniform clock fuel s1 0 0 0 k1 (S (S c)) = Some (s', 1%nat, 0%nat))
  /\
  exists l r : Matrix,
    runCalibration uniform clock fuel e seed c A B = Some (Fin 0, l, r).
Proof.
  intros He Hfuel s1 k1. subst s1 k1.
  assert (Hn : (1 <= Parameters.numParticles Parameters.default)%Z)
    by (simpl; lia).
  pose proof (init_empty uniform Parameters.default 0 0 0 (clock c) seed Hn)
    as Hi.
  cbv zeta in Hi.
  change (set_parameters (Optimizer_new [] 0 0 0) Parameters.default)
    with (Optimizer_new [] 0 0 0) in Hi.
  destruct Hi as (_ & _ & Hg).
  pose proof (init_fields uniform (clock c) (Optimizer_new [] 0 0 0) seed)
    as Hf.
  cbv zeta in Hf. destruct Hf as (Hd & Hp & _).
  pose proof (reachable_init uniform [] Parameters.default 0 0 0 (clock c) seed)
    as Hr1.
  change (set_parameters (Optimizer_new [] 0 0 0) Parameters.default)
    with (Optimizer_new [] 0 0 0) in Hr1.
  unfold runCalibration. rewrite He.
  destruct (init uniform (clock c) (Optimizer_new [] 0 0 0) seed) as [s1 k1].
  cbn [fst snd] in *.
  assert (Hc : Parameters.cost (parameters s1) = 0).
  { rewrite Hp. simpl. lra. }
  pose proof (step_empty_false s1 (clock (S (S c))) k1 Hd Hg Hc) as Hfalse.
  pose proof (reachable_step uniform [] Parameters.default s1
                (clock (S (S c))) k1 Hr1) as Hr2.
  pose proof (step_loop_empty uniform s1 (x s1) (p s1) (g s1) k1 Hd Hg) as Hz.
  pose proof (step_fields uniform (clock (S (S c))) s1 k1) as Hs.
  cbv zeta in Hs. destruct Hs as (_ & _ & _ & Hg' & _).
  pose proof (step_particles_fields uniform s1 k1) as Hm. cbv zeta in Hm.
  destruct Hm as (_ & _ & _ & _ & Hgm & _).
  rewrite <- Hgm, <- Hg' in Hz.
  destruct fuel as [|fuel]; [lia|]. cbn [run_loop].
  destruct (step uniform (clock (S (S c))) s1 k1) as [[term s2] k2].
  cbn [fst snd] in Hfalse, Hr2, Hz. subst term.
  split; [exists s2; reflexivity|].
  destruct (reachable_well_formed uniform _ _ _ Hr2) as (_ & _ & [Hg6 _] & _).
  unfold finalize, deref.
  rewrite (getExtrinsics_six _ A B Hg6), Hz.
  eexists. eexists. reflexivity.
Qed.

(** X17: on an empty store [runCalibration] makes one call of [step()] and
    returns the cost 0. *)
Theorem runCalibration_empty_store (fuel : nat) (e : EyesCalibration.t)
    (seed c : nat) (A B : Matrix) :
  EyesCalibration.data e = [] -> (1 <= fuel)%nat ->
  let s1 := fst (init uniform (clock c) (Optimizer_new [] 0 0 0) seed) in
  let k1 := snd (init uniform (clock c) (Optimizer_new [] 0 0 0) seed) in
  (exists s' : Optimizer,
      run_loop uniform clock fuel s1 0 0 0 k1 (S (S c)) = Some (s', 1%nat, 0%nat))
  /\
  exists l r : Matrix,
    runCalibration uniform clock fuel e seed c A B = Some (Fin 0, l, r).
Proof. apply empty_store_run. Qed.

End Calibration.

(* ------------------------------------------------------------------ *)
(** ** The sample store *)

Lemma set_nth_length (A : Type) (l : list A) (i : nat) (a : A) :
  length (set_nth l i a) = length l.
Proof.
  revert i; induction l as [|b l IH]; intros [|i]; simpl; auto.
Qed.

Lemma set_nth_same (A : Type) (l : list A) (i : nat) (a : A) :
  (i < length l)%nat -> nth_error (set_nth l i a) i = Some a.
Proof.
  revert i; induction l as [|b l IH]; intros [|i] Hi; simpl in *; try lia.
  - reflexivity.
  - apply IH. lia.
Qed.

Lemma set_nth_other (A : Type) (l : list A) (i j : nat) (a : A) :
  i <> j -> nth_error (set_nth l i a) j = nth_error l j.
Proof.
  revert i j; induction l as [|b l IH]; intros [|i] [|j] Hij; simpl; auto.
  congruence.
Qed.

(** X18: [addData()] adds one record at the end of the store and returns a
    reference to it; the records already stored keep their places and
    values. An assignment through the reference changes that record only,
    and the reference still designates it after further calls of
    [addData()]. *)
Theorem addData_appends (d d' d2 : CalibrationData) (e : EyesCalibration.t) :
  let e1 := fst (addData d e) in
  let r := snd (addData d e) in
  let e2 := assign_sample e1 r d' in
  let e3 := fst (addData d2 e2) in
  let n := length (EyesCalibration.data e) in
  length (EyesCalibration.data e1) = S n /\
  deref_sample e1 r = Some d /\
  deref_sample e2 r = Some d' /\
  deref_sample e3 r = Some d' /\
  deref_sample e3 (snd (addData d2 e2)) = Some d2 /\
  forall i : nat, (i < n)%nat ->
    nth_error (EyesCalibration.data e1) i = nth_error (EyesCalibration.data e) i /\
    nth_error (EyesCalibration.data e2) i = nth_error (EyesCalibration.data e) i /\
    nth_error (EyesCalibration.data e3) i = nth_error (EyesCalibration.data e) i.
Proof.
  destruct e as [l]. cbn [addData fst snd assign_sample deref_sample
                          EyesCalibration.data].
  rewrite !length_app, set_nth_length, !length_app. cbn [length].
  replace (length l + 1 - 1)%nat with (length l) by lia.
  replace (length l + 1 + 1 - 1)%nat with (S (length l)) by lia.
  assert (Hlast : forall (A : Type) (m : list A) (a : A),
             nth_error (m ++ [a]) (length m) = Some a).
  { intros A m a. rewrite nth_error_app2 by lia.
    rewrite Nat.sub_diag. reflexivity. }
  split; [lia|]. split; [apply Hlast|].
  assert (Hset : nth_error (set_nth (l ++ [d]) (length l) d') (length l)
                 = Some d').
  { apply set_nth_same. rewrite length_app. simpl. lia. }
  split; [exact Hset|].
  split.
  { rewrite nth_error_app1
      by (rewrite set_nth_length, length_app; simpl; lia).
    exact Hset. }
  split.
  { replace (S (length l)) with (length (set_nth (l ++ [d]) (length l) d'))
      by (rewrite set_nth_length, length_app; simpl; lia).
    apply Hlast. }
  intros i Hi.
  assert (H1 : nth_error (l ++ [d]) i = nth_error l i)
    by (apply nth_error_app1; exact Hi).
  assert (H2 : nth_error (set_nth (l ++ [d]) (length l) d') i = nth_error l i).
  { rewrite set_nth_other by lia. exact H1. }
  split; [exact H1|]. split; [exact H2|].
  rewrite nth_error_app1
    by (rewrite set_nth_length, length_app; simpl; lia).
  exact H2.
Qed.

(* ------------------------------------------------------------------ *)
(** ** What a run keeps *)

Section RunShape.

Context {L : CtrlMath}.
Variable uniform : nat -> R.

(** X19: a run ([numParticles] not negative, so that [x.assign] succeeds)
    keeps the store and the parameters it started with, the size
    [numParticles] of the swarm and of the personal bests, and six
    components in every position and velocity; the iteration count is never
    negative. *)
Theorem run_keeps_shape (data_ : list CalibrationData) (pars : Parameters.t)
    (s : Optimizer) :
  (0 <= Parameters.numParticles pars)%Z ->
  reachable uniform data_ pars s ->
  data s = data_ /\ parameters s = pars /\
  length (x s) = Z.to_nat (Parameters.numParticles pars) /\
  length (p s) = Z.to_nat (Parameters.numParticles pars) /\
  (forall q : Particle.t,
      In q (x s) \/ In q (p s) \/ q = g s ->
      length (Particle.pos q) = 6%nat /\ length (Particle.vel q) = 6%nat) /\
  (0 <= iter s)%Z.
Proof.
  intros _ Hreach.
  destruct (reachable_data uniform _ _ _ Hreach) as [Hd Hp].
  destruct (reachable_well_formed uniform _ _ _ Hreach)
    as (Hx6 & Hp6 & Hg6 & Hlen & _).
  assert (Hn : length (p s) = Z.to_nat (Parameters.numParticles pars)
               /\ (0 <= iter s)%Z).
  { clear Hd Hp Hx6 Hp6 Hg6 Hlen.
    induction Hreach as [iter_ t_ t0_ now k | s now k Hs IH].
    - set (s0 := set_parameters (Optimizer_new data_ iter_ t_ t0_) pars).
      pose proof (init_randomized uniform now s0 k) as Hr. cbv zeta in Hr.
      destruct Hr as (Hx & _ & Hi & _).
      pose proof (reachable_well_formed uniform _ _ _
                    (reachable_init uniform data_ pars iter_ t_ t0_ now k))
        as (_ & _ & _ & Hlen & _).
      fold s0 in Hlen. rewrite Hlen, Hx, Hi.
      destruct (mapR_randomize uniform (Parameters.lim (parameters s0))
                  (repeat Particle.default
                     (Z.to_nat (Parameters.numParticles (parameters s0))))
                  k (repeat_six _)) as [Hl _].
      rewrite Hl, repeat_length. split; [reflexivity | lia].
    - destruct IH as [IHn IHi].
      destruct (reachable_well_formed uniform _ _ _ Hs)
        as (Hx & Hp & Hg & Hlen & Hmin & Hmax).
      pose proof (step_fields uniform now s k) as Hf. cbv zeta in Hf.
      destruct Hf as (_ & _ & Hps & _ & _ & _ & Hi).
      pose proof (step_particles_fields uniform s k) as Hm. cbv zeta in Hm.
      destruct Hm as (_ & _ & _ & Hpm & _).
      pose proof (step_loop_shape uniform s (x s) (p s) (g s) k
                    Hmin Hmax Hx Hp Hg Hlen) as Hsh.
      destruct (fst (step_loop uniform s (x s) (p s) (g s) k))
        as [[xs' ps'] g'].
      destruct Hsh as (_ & _ & _ & _ & H5 & _). cbn [fst snd] in Hpm.
      rewrite Hps, Hpm, H5, Hi. split; [exact IHn | lia]. }
  destruct Hn as [Hn Hi].
  split; [exact Hd|]. split; [exact Hp|].
  split; [rewrite <- Hlen; exact Hn|]. split; [exact Hn|].
  split; [|exact Hi].
  rewrite Forall_forall in Hx6, Hp6.
  intros q [Hq|[Hq| ->]]; [apply Hx6 | apply Hp6 | exact Hg6]; exact Hq.
Qed.

End RunShape.

(* ------------------------------------------------------------------ *)
(** ** The further theorems at concrete inputs *)

Lemma zero_cost_needs_zero_translation_witness :
  [Sample.sample] <> [] /\
  evaluate_cost (L := Sample.math) [Sample.sample] [0; 0; 0; 0; 0; 0] = 0 /\
  vget [0; 0; 0; 0; 0; 0] 2 = 0.
Proof.
  assert (Hne : [Sample.sample] <> []) by discriminate.
  assert (H0 : evaluate_cost (L := Sample.math) [Sample.sample]
                 [0; 0; 0; 0; 0; 0] = 0)
    by (rewrite sample_cost by lra; lra).
  split; [exact Hne|]. split; [exact H0|].
  exact (proj1 (zero_cost_needs_zero_translation (L := Sample.math)
                  [Sample.sample] [0; 0; 0; 0; 0; 0] Hne H0)
               2%nat (ltac:(lia))).
Defined.

Lemma evaluate_cost_permutation_witness :
  evaluate_cost (L := Sample.math) [Sample.sample; Sample.sample_far]
    [1; 2; 3; 4; 5; 6] =
  evaluate_cost (L := Sample.math) [Sample.sample_far; Sample.sample]
    [1; 2; 3; 4; 5; 6].
Proof.
  apply (evaluate_cost_permutation (L := Sample.math)).
  apply perm_swap.
Defined.

Lemma evaluate_cost_app_witness :
  evaluate_cost (L := Sample.math) ([Sample.sample] ++ [Sample.sample_far])
    [1; 2; 3; 4; 5; 6] =
  (INR 1 * evaluate_cost (L := Sample.math) [Sample.sample] [1; 2; 3; 4; 5; 6]
   + INR 1 * evaluate_cost (L := Sample.math) [Sample.sample_far]
               [1; 2; 3; 4; 5; 6])
  / INR (1 + 1).
Proof.
  apply (evaluate_cost_app (L := Sample.math)); discriminate.
Defined.

Lemma global_best_is_a_personal_best_witness :
  let s := fst (init (L := Sample.math) Sample.half 0
                  (set_parameters (Optimizer_new [Sample.sample] 0 0 0)
                     Parameters.default) 0%nat) in
  (1 <= Parameters.numParticles Parameters.default)%Z /\
  exists i : nat, nth_error (p s) i = Some (g s).
Proof.
  intros s.
  assert (Hn : (1 <= Parameters.numParticles Parameters.default)%Z)
    by (simpl; lia).
  split; [exact Hn|].
  exact (proj1 (global_best_is_a_personal_best (L := Sample.math) Sample.half
                  [Sample.sample] Parameters.default s Hn
                  (reachable_init Sample.half [Sample.sample]
                     Parameters.default 0 0 0 0 0%nat))).
Defined.

Lemma init_state_witness :
  let r := init (L := Sample.math) Sample.half 5
             (set_parameters (Optimizer_new [Sample.sample] 0 0 0)
                Parameters.default) 7%nat in
  (0 <= Parameters.numParticles Parameters.default)%Z /\
  length (x (fst r)) = 20%nat /\ length (p (fst r)) = 20%nat /\
  iter (fst r) = 0%Z /\ t0 (fst r) = 5 /\ snd r = 247%nat.
Proof.
  intros r.
  assert (Hn : (0 <= Parameters.numParticles Parameters.default)%Z)
    by (simpl; lia).
  split; [exact Hn|].
  destruct (init_state (L := Sample.math) Sample.half half_range
              [Sample.sample] Parameters.default 0 0 0 5 7%nat Hn)
    as (H1 & H2 & H3 & _ & H5 & H6 & _).
  fold r in H1, H2, H3, H5, H6.
  split; [exact H1|]. split; [exact H2|]. split; [exact H3|].
  split; [exact H5 | exact H6].
Defined.

Lemma stalled_well_formed : well_formed Sample.stalled.
Proof.
  unfold well_formed, six. cbn.
  repeat split; repeat constructor.
Qed.

Lemma step_draws_witness :
  well_formed Sample.stalled /\
  length (x (snd (fst (step (L := Sample.math) Sample.half 1
                         Sample.stalled 0%nat)))) = 1%nat.
Proof.
  split; [exact stalled_well_formed|].
  exact (proj1 (step_draws (L := Sample.math) Sample.half Sample.stalled 1
                  0%nat stalled_well_formed)).
Defined.

Lemma inverted_bound_collapses_witness :
  let s := fst (init (L := Sample.math) Sample.half 0
                  (set_parameters (Optimizer_new [Sample.sample] 0 0 0)
                     Sample.inverted) 0%nat) in
  let s' := snd (fst (step (L := Sample.math) Sample.half 1 s 240%nat)) in
  -0.1 < 0.1 /\
  Forall (fun xi => -0.1 <= vget (Particle.pos xi) 0 <= 0.1) (x s').
Proof.
  intros s s'.
  assert (Hlt : -0.1 < 0.1) by lra.
  split; [exact Hlt|].
  apply Forall_forall. intros xi Hxi.
  exact (proj1 (inverted_bound_collapses (L := Sample.math) Sample.half
                  half_range [Sample.sample] Sample.inverted s 1 240%nat 0%nat
                  (reachable_init Sample.half [Sample.sample] Sample.inverted
                     0 0 0 0 0%nat)
                  (ltac:(lia)) Hlt xi Hxi)).
Defined.

Lemma no_particles_witness :
  let s := fst (init (L := Sample.math) Sample.half 0
                  (set_parameters (Optimizer_new [Sample.sample] 0 0 0)
                     Sample.no_particle) 0%nat) in
  x s = [] /\ g s = Particle.default.
Proof.
  intros s.
  destruct (no_particles (L := Sample.math) Sample.half [Sample.sample]
              Sample.no_particle s eq_refl
              (reachable_init Sample.half [Sample.sample] Sample.no_particle
                 0 0 0 0 0%nat)) as (Hx & _ & Hg & _).
  split; [exact Hx | exact Hg].
Defined.

Lemma run_loop_terminates_witness :
  let s := fst (init (L := Sample.math) Sample.half 0
                  (set_parameters (Optimizer_new [Sample.sample] 0 0 0)
                     Sample.three_steps) 0%nat) in
  exists (s' : Optimizer) (calls yields : nat),
    run_loop (L := Sample.math) Sample.half Sample.ticking 3 s 0 0 0
      240%nat 2%nat = Some (s', calls, yields) /\
    (1 <= calls <= 3)%nat.
Proof.
  intros s.
  assert (Hi : iter s = 0%Z).
  { exact (proj1 (proj2 (proj2
             (init_randomized (L := Sample.math) Sample.half 0
                (set_parameters (Optimizer_new [Sample.sample] 0 0 0)
                   Sample.three_steps) 0%nat)))). }
  assert (Hfuel : (Z.max 1 (Parameters.maxIter Sample.three_steps - iter s)
                   <= Z.of_nat 3)%Z).
  { rewrite Hi. simpl. lia. }
  destruct (run_loop_terminates (L := Sample.math) Sample.half Sample.ticking
              [Sample.sample] Sample.three_steps 3 s 0 240%nat 2%nat
              (ltac:(simpl; lia))
              (reachable_init Sample.half [Sample.sample] Sample.three_steps
                 0 0 0 0 0%nat) Hfuel)
    as (s' & calls & yields & E & _ & Hc & _ & _).
  exists s', calls, yields. split; [exact E|].
  rewrite Hi in Hc. simpl in Hc. lia.
Defined.

Lemma run_loop_yields_witness :
  let r := init (L := Sample.math) Sample.half (Sample.ticking 0)
             (Optimizer_new [] 0 0 0) 0%nat in
  exists s' : Optimizer,
    run_loop (L := Sample.math) Sample.half Sample.ticking 5 (fst r) 0 0 0
      (snd r) 2%nat = Some (s', 1%nat, 0%nat) /\
    Z.of_nat 0 = ((Z.of_nat 1 - 1) / 10)%Z.
Proof.
  intros r.
  destruct (proj1 (empty_store_run (L := Sample.math) Sample.half
                     Sample.ticking 5 {| EyesCalibration.data := [] |}
                     0%nat 0%nat [] [] eq_refl (ltac:(lia))))
    as [s' E].
  exists s'. split; [exact E|].
  exact (proj2 (run_loop_yields (L := Sample.math) Sample.half Sample.ticking
                  [] Parameters.default 5 (fst r) s' (snd r) 2%nat 1%nat 0%nat
                  (reachable_init Sample.half [] Parameters.default
                     0 0 0 (Sample.ticking 0) 0%nat) E)).
Defined.

Lemma runCalibration_result_witness :
  exists (l r : Matrix) (s' : Optimizer),
    runCalibration (L := Sample.math) Sample.half Sample.ticking 5
      {| EyesCalibration.data := [] |} 0%nat 0%nat [] [] = Some (Fin 0, l, r) /\
    Fin 0 = Particle.cost (g s') /\
    getExtrinsics (L := Sample.math) (Particle.pos (g s')) [] [] = (true, l, r).
Proof.
  destruct (proj2 (empty_store_run (L := Sample.math) Sample.half
                     Sample.ticking 5 {| EyesCalibration.data := [] |}
                     0%nat 0%nat [] [] eq_refl (ltac:(lia))))
    as (l & r & E).
  destruct (runCalibration_result (L := Sample.math) Sample.half
              Sample.ticking 5 {| EyesCalibration.data := [] |} 0%nat 0%nat
              [] [] l r (Fin 0) E)
    as (s' & calls & _ & _ & Hc & Hg & _).
  exists l, r, s'. split; [exact E|]. split; [exact Hc | exact Hg].
Defined.

Lemma runCalibration_empty_store_witness :
  exists l r : Matrix,
    runCalibration (L := Sample.math) Sample.half Sample.ticking 1
      {| EyesCalibration.data := [] |} 0%nat 0%nat [] [] = Some (Fin 0, l, r).
Proof.
  exact (proj2 (runCalibration_empty_store (L := Sample.math) Sample.half
                  Sample.ticking 1 {| EyesCalibration.data := [] |}
                  0%nat 0%nat [] [] eq_refl (ltac:(lia)))).
Defined.

Lemma run_keeps_shape_witness :
  let s := snd (fst (step (L := Sample.math) Sample.half 1
                       (fst (init (L := Sample.math) Sample.half 0
                               (set_parameters
                                  (Optimizer_new [Sample.sample] 0 0 0)
                                  Parameters.default) 0%nat)) 240%nat)) in
  data s = [Sample.sample] /\ length (x s) = 20%nat /\ length (p s) = 20%nat.
Proof.
  intros s.
  destruct (run_keeps_shape (L := Sample.math) Sample.half [Sample.sample]
              Parameters.default s (ltac:(simpl; lia))
              (reachable_step Sample.half [Sample.sample] Parameters.default
                 _ 1 240%nat
                 (reachable_init Sample.half [Sample.sample]
                    Parameters.default 0 0 0 0 0%nat)))
    as (Hd & _ & Hx & Hp & _).
  split; [exact Hd|]. split; [exact Hx | exact Hp].
Defined.
